(** * TabModel: the list model over a browser window's tabs

    A shallow embedding of [src/lib/tabwidget/tabmodel.cpp] (QupZilla).
    [TabModel] mirrors the tab container of a [BrowserWindow] in a
    [QVector<WebTab*>], forwards the container's structural signals to the
    view through the begin/end calls of [QAbstractItemModel], and turns a
    drop of dragged rows into [moveTab] commands on the container.

    The file is organised as follows:
    - machine integers, bytes and the [QDataStream] encoding of an [int];
    - the [QVector] operations the model uses, with their preconditions;
    - [QModelIndex], [QVariant], [QMimeData];
    - the tab container as an interface, and the world the model runs in;
    - the member functions of [TabModel], in the order of the source;
    - a list-backed tab container and the reference list operations;
    - the theorems. *)

From Stdlib Require Import String.
From Stdlib Require Import ZArith List Bool Lia Permutation.
From Stdlib.Strings Require Import Byte.
Import ListNotations.
Local Open Scope Z_scope.

(** ** Machine integers *)

Module Int32.

Definition modulus : Z := 2 ^ 32.
Definition INT_MAX : Z := 2 ^ 31 - 1.
Definition INT_MIN : Z := - 2 ^ 31.

(** The values of a C++ [int]. *)
Definition in_range (z : Z) : Prop := INT_MIN <= z <= INT_MAX.

Definition in_rangeb (z : Z) : bool := (INT_MIN <=? z) && (z <=? INT_MAX).

(** The bit pattern of an [int], as an unsigned 32-bit number. *)
Definition to_unsigned (z : Z) : Z := z mod modulus.

(** The [int] a 32-bit pattern stands for (two's complement). *)
Definition of_unsigned (u : Z) : Z :=
  if u <? 2 ^ 31 then u else u - modulus.

(** Arithmetic on [int] wraps around. *)
Definition wrap (z : Z) : Z := of_unsigned (to_unsigned z).

Definition add (a b : Z) : Z := wrap (a + b).
Definition sub (a b : Z) : Z := wrap (a - b).

End Int32.

(** ** Bytes and [QDataStream] *)

Definition QByteArray := list byte.

Definition byte_to_Z (b : byte) : Z := Z.of_N (Byte.to_N b).

Definition byte_of_Z (z : Z) : byte :=
  match Byte.of_N (Z.to_N z) with
  | Some b => b
  | None => x00
  end.

Module QDataStream.

(** [stream << i] for an [int]: [QDataStream] writes a [qint32] as four
    bytes, most significant first (its default byte order). *)
Definition int_bytes (i : Z) : QByteArray :=
  let u := Int32.to_unsigned i in
  [ byte_of_Z (Z.land (Z.shiftr u 24) 255);
    byte_of_Z (Z.land (Z.shiftr u 16) 255);
    byte_of_Z (Z.land (Z.shiftr u 8) 255);
    byte_of_Z (Z.land u 255) ].

(** A write-only stream over a byte array appends to it. *)
Definition write_int (buf : QByteArray) (i : Z) : QByteArray :=
  buf ++ int_bytes i.

Definition int_of_bytes (b3 b2 b1 b0 : byte) : Z :=
  Int32.of_unsigned
    (Z.lor (Z.shiftl (byte_to_Z b3) 24)
       (Z.lor (Z.shiftl (byte_to_Z b2) 16)
          (Z.lor (Z.shiftl (byte_to_Z b1) 8) (byte_to_Z b0)))).

(** [stream >> idx]: four bytes give an [int]; when fewer than four bytes
    are left the read consumes them, the stream is at its end and the
    value read is 0. *)
Definition read_int (buf : QByteArray) : Z * QByteArray :=
  match buf with
  | b3 :: b2 :: b1 :: b0 :: rest => (int_of_bytes b3 b2 b1 b0, rest)
  | _ => (0, [])
  end.

Definition atEnd (buf : QByteArray) : bool :=
  match buf with
  | [] => true
  | _ :: _ => false
  end.

End QDataStream.

Arguments byte_of_Z : simpl never.
Arguments byte_to_Z : simpl never.
Arguments QDataStream.int_bytes : simpl never.
Arguments QDataStream.int_of_bytes : simpl never.

(** ** [QVector] *)

Module QVector.
Section Ops.
Context {A : Type}.

Definition count (v : list A) : Z := Z.of_nat (length v).

Definition in_bounds (v : list A) (i : Z) : bool :=
  (0 <=? i) && (i <? count v).

(** [value(i)]: the element at [i], or a default-constructed value (for
    a pointer: null, here [None]) when [i] is out of bounds. *)
Definition value (v : list A) (i : Z) : option A :=
  if in_bounds v i then nth_error v (Z.to_nat i) else None.

Fixpoint insert_at (n : nat) (x : A) (v : list A) : list A :=
  match n, v with
  | O, _ => x :: v
  | S n', [] => [x]
  | S n', y :: v' => y :: insert_at n' x v'
  end.

(** [insert(i, x)] requires [0 <= i <= size]. *)
Definition insert (i : Z) (x : A) (v : list A) : option (list A) :=
  if (0 <=? i) && (i <=? count v)
  then Some (insert_at (Z.to_nat i) x v)
  else None.

Fixpoint remove_at (n : nat) (v : list A) : list A :=
  match n, v with
  | _, [] => []
  | O, _ :: v' => v'
  | S n', y :: v' => y :: remove_at n' v'
  end.

(** [remove(i)] requires a valid index position. *)
Definition remove (i : Z) (v : list A) : option (list A) :=
  if in_bounds v i then Some (remove_at (Z.to_nat i) v) else None.

(** [takeAt(i)] requires a valid index position; it removes the element
    and returns it. *)
Definition takeAt (i : Z) (v : list A) : option (A * list A) :=
  if in_bounds v i then
    match nth_error v (Z.to_nat i) with
    | Some x => Some (x, remove_at (Z.to_nat i) v)
    | None => None
    end
  else None.

Definition isEmpty (v : list A) : bool :=
  match v with
  | [] => true
  | _ :: _ => false
  end.

Definition append (v : list A) (x : A) : list A := v ++ [x].

End Ops.

Fixpoint index_from {A : Type} (eqb : A -> A -> bool) (x : A)
         (v : list A) (k : Z) : Z :=
  match v with
  | [] => -1
  | y :: v' => if eqb y x then k else index_from eqb x v' (k + 1)
  end.

(** [indexOf(x)]: the first position of [x], or -1. *)
Definition indexOf {A : Type} (eqb : A -> A -> bool) (v : list A) (x : A) : Z :=
  index_from eqb x v 0.

End QVector.

(** ** Qt value types *)

Module Qt.
(** [Qt::ItemDataRole] *)
Definition DisplayRole : Z := 0.
Definition DecorationRole : Z := 1.
Definition UserRole : Z := 256.

(** [Qt::ItemFlag] *)
Definition ItemIsSelectable : Z := 1.
Definition ItemIsEditable : Z := 2.
Definition ItemIsDragEnabled : Z := 4.
Definition ItemIsDropEnabled : Z := 8.
Definition ItemIsEnabled : Z := 32.

(** [Qt::DropAction] *)
Variant DropAction :=
| CopyAction | MoveAction | LinkAction | IgnoreAction | TargetMoveAction.

Definition is_ignore (a : DropAction) : bool :=
  match a with
  | IgnoreAction => true
  | _ => false
  end.
End Qt.

Module QModelIndex.
(** A model index: row, column and whether it belongs to a model. *)
Record t := make { row : Z; column : Z; has_model : bool }.

(** [QModelIndex()] *)
Definition invalid : t := make (-1) (-1) false.

Definition isValid (i : t) : bool :=
  (0 <=? row i) && (0 <=? column i) && has_model i.
End QModelIndex.

Module QMimeData.
(** The data of a drag, by format: the entry set last for a format is the
    one in front. *)
Definition t := list (string * QByteArray).

Definition empty : t := [].

Definition setData (m : t) (mimetype : string) (d : QByteArray) : t :=
  (mimetype, d) :: filter (fun e => negb (String.eqb (fst e) mimetype)) m.

Definition hasFormat (m : t) (mimetype : string) : bool :=
  existsb (fun e => String.eqb (fst e) mimetype) m.

(** [data(mimetype)]: an empty byte array when the format is absent. *)
Fixpoint data (m : t) (mimetype : string) : QByteArray :=
  match m with
  | [] => []
  | (k, d) :: m' => if String.eqb k mimetype then d else data m' mimetype
  end.
End QMimeData.

(** ** Tabs, the window and its tab container *)

(** A [WebTab*] that is not null: the address of the tab object. *)
Definition WebTab := nat.

Definition QIcon := nat.

(** What the model reads from a tab object. *)
Record WebTabState := {
  title : string;
  icon : QIcon;
  isPinned : bool;
  isRestored : bool;
  isCurrentTab : bool;
  isLoading : bool;
  isPlaying : bool;
  isMuted : bool
}.

Variant QVariant :=
| Invalid
| FromWebTab (t : WebTab)
| FromString (s : string)
| FromIcon (i : QIcon)
| FromBool (b : bool).

(** The signals of [TabWidget] the model connects to in [init]. *)
Variant TabWidgetSignal :=
| SigTabInserted (index : Z)
| SigTabRemoved (index : Z)
| SigTabMoved (from to : Z).

(** The change signals of [WebTab] the model connects to in [tabInserted]. *)
Variant WebTabSignal :=
| titleChanged | iconChanged | pinnedChanged | restoredChanged
| currentTabChanged | loadingChanged | playingChanged | mutedChanged.

Definition WebTabSignal_eqb (a b : WebTabSignal) : bool :=
  match a, b with
  | titleChanged, titleChanged | iconChanged, iconChanged
  | pinnedChanged, pinnedChanged | restoredChanged, restoredChanged
  | currentTabChanged, currentTabChanged | loadingChanged, loadingChanged
  | playingChanged, playingChanged | mutedChanged, mutedChanged => true
  | _, _ => false
  end.

(** The window's tab container, with what the model asks of it. The
    container ([TabWidget], [BrowserWindow], [WebTab::tabIndex]) is not part
    of [tabmodel.cpp]; the model is verified against every container.
    - [tabCount c] is [m_window->tabCount()];
    - [webTabAt c i] is [m_window->weView(i)->webTab()], [None] when there is
      no view at [i] and the call dereferences null;
    - [WebTab_tabIndex c t] is [t->tabIndex()], the tab's current position
      in the container;
    - [moveTab from to c] is [m_window->tabWidget()->moveTab(from, to)]: the
      container after the call and the signals it emitted during it. *)
Class TabWidget (TW : Type) := {
  tabCount : TW -> Z;
  webTabAt : TW -> Z -> option WebTab;
  WebTab_tabIndex : TW -> WebTab -> Z;
  moveTab : Z -> Z -> TW -> TW * list TabWidgetSignal
}.

(** The enumerators of [TabModel::Roles], declared in [tabmodel.h]. *)
Record Roles := {
  WebTabRole : Z;
  TitleRole : Z;
  IconRole : Z;
  PinnedRole : Z;
  RestoredRole : Z;
  CurrentTabRole : Z;
  LoadingRole : Z;
  AudioPlayingRole : Z;
  AudioMutedRole : Z
}.

(** The handle [m_window] points to when it is not null. *)
Variant BrowserWindow := TheWindow.

(** The calls the model makes into [QAbstractItemModel] to notify its
    observers. *)
Variant ModelCall :=
| BeginInsertRows (first last : Z)
| EndInsertRows
| BeginRemoveRows (first last : Z)
| EndRemoveRows
| BeginMoveRows (sourceFirst sourceLast destinationChild : Z)
| EndMoveRows
| BeginResetModel
| EndResetModel
| DataChanged (topLeft bottomRight : QModelIndex.t) (role : Z).

(** The state the member functions run in: the objects the model points to
    (the window's tab container, the tab objects), the model's own members,
    and what it has sent out so far: its notification calls and its
    [moveTab] requests, oldest first. *)
Record World (TW : Type) := mkWorld {
  tabWidget : TW;
  webTab : WebTab -> WebTabState;
  m_window : option BrowserWindow;
  m_tabs : list WebTab;
  m_connections : list (WebTab * WebTabSignal * Z);
  calls : list ModelCall;
  requests : list (Z * Z)
}.

Arguments mkWorld {TW}.
Arguments tabWidget {TW}.
Arguments webTab {TW}.
Arguments m_window {TW}.
Arguments m_tabs {TW}.
Arguments m_connections {TW}.
Arguments calls {TW}.
Arguments requests {TW}.

(** ** Results and the monad of member functions *)

(** A call either returns or faults: a null pointer is dereferenced, or a
    [QVector] operation is given a position outside its precondition. *)
Inductive Result (A : Type) :=
| Ok (a : A)
| Fault.

Arguments Ok {A}.
Arguments Fault {A}.

Definition M (TW A : Type) := World TW -> Result (A * World TW).

Definition ret {TW A} (a : A) : M TW A := fun w => Ok (a, w).

Definition bind {TW A B} (m : M TW A) (f : A -> M TW B) : M TW B :=
  fun w =>
    match m w with
    | Ok (a, w') => f a w'
    | Fault => Fault
    end.

Definition fault {TW A} : M TW A := fun _ => Fault.

Declare Scope tm_scope.
Delimit Scope tm_scope with tm.
Notation "x <- m ;; k" := (bind m (fun x => k))
  (at level 61, m at next level, right associativity) : tm_scope.
Notation "m ;; k" := (bind m (fun _ => k))
  (at level 61, right associativity) : tm_scope.

Definition get {TW} : M TW (World TW) := fun w => Ok (w, w).

Definition set_m_tabs {TW} (v : list WebTab) : M TW unit :=
  fun w => Ok (tt, mkWorld (tabWidget w) (webTab w) (m_window w) v
                      (m_connections w) (calls w) (requests w)).

Definition set_m_window {TW} (p : option BrowserWindow) : M TW unit :=
  fun w => Ok (tt, mkWorld (tabWidget w) (webTab w) p (m_tabs w)
                      (m_connections w) (calls w) (requests w)).

Definition set_tabWidget {TW} (c : TW) : M TW unit :=
  fun w => Ok (tt, mkWorld c (webTab w) (m_window w) (m_tabs w)
                      (m_connections w) (calls w) (requests w)).

(** A call into [QAbstractItemModel]. *)
Definition call {TW} (c : ModelCall) : M TW unit :=
  fun w => Ok (tt, mkWorld (tabWidget w) (webTab w) (m_window w) (m_tabs w)
                      (m_connections w) (calls w ++ [c]) (requests w)).

(** [connect(tab, signal, this, std::bind(emitDataChanged, tab, role))] *)
Definition connect {TW} (tab : WebTab) (s : WebTabSignal) (role : Z) : M TW unit :=
  fun w => Ok (tt, mkWorld (tabWidget w) (webTab w) (m_window w) (m_tabs w)
                      (m_connections w ++ [(tab, s, role)]) (calls w) (requests w)).

Definition log_request {TW} (from to : Z) : M TW unit :=
  fun w => Ok (tt, mkWorld (tabWidget w) (webTab w) (m_window w) (m_tabs w)
                      (m_connections w) (calls w) (requests w ++ [(from, to)])).

(** Lifting a [QVector] operation: outside its precondition it faults. *)
Definition lift {TW A} (o : option A) : M TW A :=
  match o with
  | Some a => ret a
  | None => fault
  end.

(** ** The member functions of [TabModel] *)

Definition MIMETYPE : string := "application/qupzilla.tabmodel.tab".

Section TabModel.
Context {TW : Type} {container : TabWidget TW}.
Variable R : Roles.

Local Open Scope tm_scope.

Local Abbreviation World := (World TW).
Local Abbreviation M := (M TW).

(** [QAbstractListModel::index(row)] with the default column 0 and the
    root as parent: the index exists when the row does. *)
Definition index (w : World) (row : Z) : QModelIndex.t :=
  if (0 <=? row) && (row <? QVector.count (m_tabs w))
  then QModelIndex.make row 0 true
  else QModelIndex.invalid.

Definition tabIndex (w : World) (tab : WebTab) : QModelIndex.t :=
  let idx := QVector.indexOf Nat.eqb (m_tabs w) tab in
  if idx <? 0 then QModelIndex.invalid else index w idx.

Definition tab (w : World) (index : QModelIndex.t) : option WebTab :=
  QVector.value (m_tabs w) (QModelIndex.row index).

Definition rowCount (w : World) (parent : QModelIndex.t) : Z :=
  if QModelIndex.isValid parent then 0 else QVector.count (m_tabs w).

Definition flags (w : World) (index : QModelIndex.t) : Z :=
  if negb (QModelIndex.isValid index) then Qt.ItemIsDropEnabled
  else Z.lor (Z.lor Qt.ItemIsEnabled Qt.ItemIsSelectable) Qt.ItemIsDragEnabled.

(** The [switch] of [data]: the case labels in the order of the source. *)
Definition data_of_role (t : WebTab) (s : WebTabState) (role : Z) : QVariant :=
  if role =? WebTabRole R then FromWebTab t
  else if (role =? TitleRole R) || (role =? Qt.DisplayRole) then FromString (title s)
  else if (role =? IconRole R) || (role =? Qt.DecorationRole) then FromIcon (icon s)
  else if role =? PinnedRole R then FromBool (isPinned s)
  else if role =? RestoredRole R then FromBool (isRestored s)
  else if role =? CurrentTabRole R then FromBool (isCurrentTab s)
  else if role =? LoadingRole R then FromBool (isLoading s)
  else if role =? AudioPlayingRole R then FromBool (isPlaying s)
  else if role =? AudioMutedRole R then FromBool (isMuted s)
  else Invalid.

Definition data (w : World) (index : QModelIndex.t) (role : Z) : QVariant :=
  if (QModelIndex.row index <? 0)
     || (QModelIndex.row index >? QVector.count (m_tabs w))
  then Invalid
  else
    match tab w index with
    | None => Invalid
    | Some t => data_of_role t (webTab w t) role
    end.

Definition supportedDropActions : list Qt.DropAction := [Qt.MoveAction].

Definition mimeTypes : list string := [MIMETYPE].

(** The loop of [mimeData] over [indexes], writing to the stream. *)
Fixpoint mimeData_stream (indexes : list QModelIndex.t) (data : QByteArray)
  : QByteArray :=
  match indexes with
  | [] => data
  | index :: rest =>
      if QModelIndex.isValid index && (QModelIndex.column index =? 0)
      then mimeData_stream rest (QDataStream.write_int data (QModelIndex.row index))
      else mimeData_stream rest data
  end.

Definition mimeData (indexes : list QModelIndex.t) : QMimeData.t :=
  let data := mimeData_stream indexes [] in
  QMimeData.setData QMimeData.empty MIMETYPE data.

(** The body of the read loop of [dropMimeData]: the tab at the row read,
    appended when there is one. *)
Definition append_tab (w : World) (idx : Z) (tabs : list WebTab) : list WebTab :=
  match tab w (index w idx) with
  | Some t => QVector.append tabs t
  | None => tabs
  end.

(** [while (!stream.atEnd()) { stream >> idx; ... }]: each round consumes
    four bytes, or what is left of them. *)
Fixpoint read_tabs (w : World) (stream : QByteArray) (tabs : list WebTab)
  : list WebTab :=
  match stream with
  | [] => tabs
  | b3 :: b2 :: b1 :: b0 :: rest =>
      read_tabs w rest (append_tab w (QDataStream.int_of_bytes b3 b2 b1 b0) tabs)
  | _ => append_tab w 0 tabs
  end.

(** [m_window->weView(index)->webTab()] *)
Definition window_webTab (index : Z) : M WebTab :=
  fun w =>
    match m_window w with
    | None => Fault
    | Some _ =>
        match webTabAt (tabWidget w) index with
        | None => Fault
        | Some t => Ok (t, w)
        end
    end.

Definition tabInserted (index : Z) : M unit :=
  tab <- window_webTab index ;;
  call (BeginInsertRows index index) ;;
  w <- get ;;
  v <- lift (QVector.insert index tab (m_tabs w)) ;;
  set_m_tabs v ;;
  call EndInsertRows ;;
  connect tab titleChanged Qt.DisplayRole ;;
  connect tab titleChanged (TitleRole R) ;;
  connect tab iconChanged Qt.DecorationRole ;;
  connect tab iconChanged (IconRole R) ;;
  connect tab pinnedChanged (PinnedRole R) ;;
  connect tab restoredChanged (RestoredRole R) ;;
  connect tab currentTabChanged (CurrentTabRole R) ;;
  connect tab loadingChanged (LoadingRole R) ;;
  connect tab playingChanged (AudioPlayingRole R) ;;
  connect tab mutedChanged (AudioMutedRole R).

(** The lambda [emitDataChanged] of [tabInserted]. *)
Definition emitDataChanged (tab : WebTab) (role : Z) : M unit :=
  w <- get ;;
  let idx := tabIndex w tab in
  call (DataChanged idx idx role).

Definition tabRemoved (index : Z) : M unit :=
  call (BeginRemoveRows index index) ;;
  w <- get ;;
  v <- lift (QVector.remove index (m_tabs w)) ;;
  set_m_tabs v ;;
  call EndRemoveRows.

Definition tabMoved (from to : Z) : M unit :=
  call (BeginMoveRows from from (if to >? from then Int32.add to 1 else to)) ;;
  w <- get ;;
  taken <- lift (QVector.takeAt from (m_tabs w)) ;;
  v <- lift (QVector.insert to (fst taken) (snd taken)) ;;
  set_m_tabs v ;;
  call EndMoveRows.

(** The lambda connected to the window's [destroyed] signal in [init]. *)
Definition window_destroyed : M unit :=
  call BeginResetModel ;;
  set_m_window None ;;
  set_m_tabs [] ;;
  call EndResetModel.

(** The slot a signal of the tab container is connected to in [init]. *)
Definition slot (s : TabWidgetSignal) : M unit :=
  match s with
  | SigTabInserted index => tabInserted index
  | SigTabRemoved index => tabRemoved index
  | SigTabMoved from to => tabMoved from to
  end.

(** Signals are delivered in the order they were emitted, each slot
    running to its end before the next. *)
Fixpoint deliver (signals : list TabWidgetSignal) : M unit :=
  match signals with
  | [] => ret tt
  | s :: rest => slot s ;; deliver rest
  end.

(** A change signal of a tab runs every connection made for it, in the
    order the connections were made. *)
Fixpoint run_connections (cs : list (WebTab * WebTabSignal * Z))
         (tab : WebTab) (s : WebTabSignal) : M unit :=
  match cs with
  | [] => ret tt
  | (t, s', role) :: rest =>
      (if Nat.eqb t tab && WebTabSignal_eqb s' s
       then emitDataChanged tab role else ret tt) ;;
      run_connections rest tab s
  end.

Definition webTab_signal (tab : WebTab) (s : WebTabSignal) : M unit :=
  w <- get ;;
  run_connections (m_connections w) tab s.

(** [m_window->tabWidget()->moveTab(from, to)]: the request goes to the
    container, and the signals the container emits reach the model's
    slots before the call returns. *)
Definition tabWidget_moveTab (from to : Z) : M unit :=
  log_request from to ;;
  w <- get ;;
  let r := moveTab from to (tabWidget w) in
  set_tabWidget (fst r) ;;
  deliver (snd r).

(** The [for] loop of [dropMimeData] over [tabs]; [row] is the function's
    parameter, which the loop increments. *)
Fixpoint move_tabs (tabs : list WebTab) (row : Z) : M unit :=
  match tabs with
  | [] => ret tt
  | t :: rest =>
      w <- get ;;
      let from := WebTab_tabIndex (tabWidget w) t in
      let to := if row >=? from then Int32.sub row 1 else row in
      let row' := if row >=? from then row else Int32.add row 1 in
      tabWidget_moveTab from to ;;
      move_tabs rest row'
  end.

Definition dropMimeData (data : QMimeData.t) (action : Qt.DropAction)
           (row column : Z) (parent : QModelIndex.t) : M bool :=
  if Qt.is_ignore action then ret true
  else
    w <- get ;;
    if match m_window w with None => true | Some _ => false end
       || negb (QMimeData.hasFormat data MIMETYPE)
       || QModelIndex.isValid parent
       || negb (column =? 0)
    then ret false
    else
      let encodedData := QMimeData.data data MIMETYPE in
      let tabs := read_tabs w encodedData [] in
      if QVector.isEmpty tabs then ret false
      else
        move_tabs tabs row ;;
        ret true.

(** The loop of [init]: [tabInserted(i)] for every tab of the window. *)
Fixpoint init_loop (n : nat) (i : Z) : M unit :=
  match n with
  | O => ret tt
  | S n' => tabInserted i ;; init_loop n' (i + 1)
  end.

(** [init], called by the constructor. The connections it makes are the
    functions [slot] and [window_destroyed]. *)
Definition init : M unit :=
  w <- get ;;
  match m_window w with
  | None => fault
  | Some _ => init_loop (Z.to_nat (tabCount (tabWidget w))) 0
  end.

End TabModel.

Arguments index {TW}.
Arguments tab {TW}.
Arguments tabIndex {TW}.
Arguments rowCount {TW}.
Arguments flags {TW}.
Arguments append_tab {TW}.
Arguments read_tabs {TW}.

(** [TabModel(window, parent)]: the members are initialised and [init]
    runs, over the window's tab container [c] and the tab objects [tabs]. *)
Definition TabModel_new {TW : Type} {container : TabWidget TW} (R : Roles)
           (c : TW) (tabs : WebTab -> WebTabState) : Result (unit * World TW) :=
  init R (mkWorld c tabs (Some TheWindow) [] [] [] []).

(** ** The reference list and a list-backed tab container *)

Module Reference.

(** Modelled from the spec: the reference list of the testable properties,
    with its three operations. Insert-at puts the tab before the element at
    [index]; remove-at erases the element at [index]; move is the splice
    "remove from [from], insert at [to]". *)
Definition insert_at (index : nat) (t : WebTab) (l : list WebTab) : list WebTab :=
  firstn index l ++ t :: skipn index l.

Definition remove_at (index : nat) (l : list WebTab) : list WebTab :=
  firstn index l ++ skipn (S index) l.

Definition move (from to : nat) (l : list WebTab) : list WebTab :=
  match nth_error l from with
  | Some t => insert_at to t (remove_at from l)
  | None => l
  end.

(** The operations of the tab container, each announced to the model by the
    signal of the same name. *)
Variant Op :=
| InsertTab (index : Z) (t : WebTab)
| RemoveTab (index : Z)
| MoveTab (from to : Z).

Definition apply (op : Op) (l : list WebTab) : list WebTab :=
  match op with
  | InsertTab index t => insert_at (Z.to_nat index) t l
  | RemoveTab index => remove_at (Z.to_nat index) l
  | MoveTab from to => move (Z.to_nat from) (Z.to_nat to) l
  end.

(** In-range indices: an insertion position of the list for an insertion, a
    row of the list for a removal and for both ends of a move. *)
Definition in_range (op : Op) (l : list WebTab) : bool :=
  let n := Z.of_nat (length l) in
  match op with
  | InsertTab index _ => (0 <=? index) && (index <=? n)
  | RemoveTab index => (0 <=? index) && (index <? n)
  | MoveTab from to => (0 <=? from) && (from <? n) && (0 <=? to) && (to <? n)
  end.

Fixpoint run (ops : list Op) (l : list WebTab) : list WebTab :=
  match ops with
  | [] => l
  | op :: rest => run rest (apply op l)
  end.

Fixpoint all_in_range (ops : list Op) (l : list WebTab) : bool :=
  match ops with
  | [] => true
  | op :: rest => in_range op l && all_in_range rest (apply op l)
  end.

Definition signal (op : Op) : TabWidgetSignal :=
  match op with
  | InsertTab index _ => SigTabInserted index
  | RemoveTab index => SigTabRemoved index
  | MoveTab from to => SigTabMoved from to
  end.

End Reference.

(** Modelled from the spec: the tab container ([TabWidget], absent from the
    sources at hand) as the ordered collection of the window's open tabs,
    with the queries [tabCount()] and [tabAt(index)] and the command
    [moveTab(from, to)]. The command is the container's move operation: the
    collection is reordered as the reference list is and the move is
    announced by [tabMoved(from, to)]. *)
#[global] Instance ListContainer : TabWidget (list WebTab) := {
  tabCount c := Z.of_nat (length c);
  webTabAt c i := if (0 <=? i) && (i <? Z.of_nat (length c))
                  then nth_error c (Z.to_nat i) else None;
  WebTab_tabIndex c t := QVector.indexOf Nat.eqb c t;
  moveTab from to c :=
    (Reference.apply (Reference.MoveTab from to) c,
     [Reference.signal (Reference.MoveTab from to)])
}.

(** The container performs an operation and announces it: the model's slot
    runs with the container already changed. *)
Definition announce (R : Roles) (op : Reference.Op) : M (list WebTab) unit :=
  (w <- get ;;
   set_tabWidget (Reference.apply op (tabWidget w)) ;;
   slot R (Reference.signal op))%tm.

Fixpoint announce_all (R : Roles) (ops : list Reference.Op) : M (list WebTab) unit :=
  match ops with
  | [] => ret tt
  | op :: rest => (announce R op ;; announce_all R rest)%tm
  end.

(** Role numbers for the examples: consecutive from [Qt::UserRole + 1]. *)
Definition example_roles : Roles :=
  {| WebTabRole := Qt.UserRole + 1; TitleRole := Qt.UserRole + 2;
     IconRole := Qt.UserRole + 3; PinnedRole := Qt.UserRole + 4;
     RestoredRole := Qt.UserRole + 5; CurrentTabRole := Qt.UserRole + 6;
     LoadingRole := Qt.UserRole + 7; AudioPlayingRole := Qt.UserRole + 8;
     AudioMutedRole := Qt.UserRole + 9 |}.

Definition example_tab_state (t : WebTab) : WebTabState :=
  {| title := "tab"; icon := t; isPinned := false; isRestored := true;
     isCurrentTab := Nat.eqb t 1; isLoading := false; isPlaying := false;
     isMuted := false |}.

(** A model in step with a list-backed container holding [tabs]. *)
Definition example_world (tabs : list WebTab) : World (list WebTab) :=
  mkWorld tabs example_tab_state (Some TheWindow) tabs [] [] [].

(** The roles [data] answers: the case labels of its [switch]. *)
Definition recognized_roles (R : Roles) : list Z :=
  [ WebTabRole R; TitleRole R; Qt.DisplayRole; IconRole R; Qt.DecorationRole;
    PinnedRole R; RestoredRole R; CurrentTabRole R; LoadingRole R;
    AudioPlayingRole R; AudioMutedRole R ].

(** The model is in step with its list-backed container. *)
Definition in_step (w : World (list WebTab)) : Prop :=
  m_window w <> None /\ m_tabs w = tabWidget w.

(** The rows a payload holds: what the reads of [stream >> idx] return, in
    order, until the stream is at its end. *)
Fixpoint read_rows (stream : QByteArray) : list Z :=
  match stream with
  | [] => []
  | b3 :: b2 :: b1 :: b0 :: rest =>
      QDataStream.int_of_bytes b3 b2 b1 b0 :: read_rows rest
  | _ => [0]
  end.

(** The live tabs a sequence of rows resolves to, in order; a row without a
    tab is skipped. *)
Definition resolve {TW : Type} (w : World TW) (rows : list Z) : list WebTab :=
  flat_map (fun idx => match tab w (index w idx) with
                       | Some t => [t]
                       | None => []
                       end) rows.

(** The index of a row of the model, column 0. *)
Definition row_index (row : Z) : QModelIndex.t := QModelIndex.make row 0 true.

(** The indexes [mimeData] encodes. *)
Definition encoded (index : QModelIndex.t) : bool :=
  QModelIndex.isValid index && (QModelIndex.column index =? 0).

(** The reasons for which [dropMimeData] moves nothing, with the value it
    then returns: the ignore action is accepted; every other action is
    refused without a window, without the model's format in the payload,
    on a nested target, on a column other than 0, and when none of the rows
    of the payload has a tab. *)
Inductive NoDrop {TW : Type} (w : World TW) (data : QMimeData.t)
          (action : Qt.DropAction) (column : Z) (parent : QModelIndex.t)
  : bool -> Prop :=
| NoDrop_ignore :
    action = Qt.IgnoreAction -> NoDrop w data action column parent true
| NoDrop_no_window :
    action <> Qt.IgnoreAction -> m_window w = None ->
    NoDrop w data action column parent false
| NoDrop_no_format :
    action <> Qt.IgnoreAction -> QMimeData.hasFormat data MIMETYPE = false ->
    NoDrop w data action column parent false
| NoDrop_nested :
    action <> Qt.IgnoreAction -> QModelIndex.isValid parent = true ->
    NoDrop w data action column parent false
| NoDrop_column :
    action <> Qt.IgnoreAction -> column <> 0 ->
    NoDrop w data action column parent false
| NoDrop_unresolved :
    action <> Qt.IgnoreAction ->
    Forall (fun idx => tab w (index w idx) = None)
           (read_rows (QMimeData.data data MIMETYPE)) ->
    NoDrop w data action column parent false.

(** The reorder algorithm in the words of its description: for each
    resolved tab in payload order, the source is the tab's current row in
    the container as the moves issued so far have left it; the destination
    is [row - 1] when the drop row is at or past the source, and otherwise
    the drop row, which then grows by one for the next tab. *)
Fixpoint reorder_requests {TW : Type} {container : TabWidget TW}
         (c : TW) (row : Z) (tabs : list WebTab) : list (Z * Z) :=
  match tabs with
  | [] => []
  | t :: rest =>
      let from := WebTab_tabIndex c t in
      if row >=? from
      then (from, row - 1) :: reorder_requests (fst (moveTab from (row - 1) c)) row rest
      else (from, row) :: reorder_requests (fst (moveTab from row c)) (row + 1) rest
  end.

(** The calls a slot makes for a signal of the container: the begin call
    with the rows of the signal, then the end call. *)
Definition notification (s : TabWidgetSignal) : list ModelCall :=
  match s with
  | SigTabInserted index => [BeginInsertRows index index; EndInsertRows]
  | SigTabRemoved index => [BeginRemoveRows index index; EndRemoveRows]
  | SigTabMoved from to =>
      [BeginMoveRows from from (if to >? from then Int32.add to 1 else to);
       EndMoveRows]
  end.

(** The connections [tabInserted] makes for a tab, in the order of the
    source. *)
Definition tab_connections (R : Roles) (tab : WebTab)
  : list (WebTab * WebTabSignal * Z) :=
  [ (tab, titleChanged, Qt.DisplayRole);
    (tab, titleChanged, TitleRole R);
    (tab, iconChanged, Qt.DecorationRole);
    (tab, iconChanged, IconRole R);
    (tab, pinnedChanged, PinnedRole R);
    (tab, restoredChanged, RestoredRole R);
    (tab, currentTabChanged, CurrentTabRole R);
    (tab, loadingChanged, LoadingRole R);
    (tab, playingChanged, AudioPlayingRole R);
    (tab, mutedChanged, AudioMutedRole R) ].

(** The roles connected to a signal of a tab, in the order the connections
    were made. *)
Definition connected_roles (cs : list (WebTab * WebTabSignal * Z))
           (tab : WebTab) (s : WebTabSignal) : list Z :=
  map snd
    (filter (fun c => Nat.eqb (fst (fst c)) tab
                      && WebTabSignal_eqb (snd (fst c)) s) cs).

(** The tabs of a container, by position: what [init] reads. *)
Definition container_tabs {TW : Type} {container : TabWidget TW} (c : TW)
  : list (option WebTab) :=
  map (fun i => webTabAt c (Z.of_nat i)) (seq 0 (Z.to_nat (tabCount c))).

(** What a slot does to the list, on the list alone: [c] is the container
    the slot looks at, and [None] stands for a fault. *)
Definition slot_list {TW : Type} {container : TabWidget TW}
           (c : TW) (s : TabWidgetSignal) (l : list WebTab)
  : option (list WebTab) :=
  match s with
  | SigTabInserted index =>
      match webTabAt c index with
      | Some t => QVector.insert index t l
      | None => None
      end
  | SigTabRemoved index => QVector.remove index l
  | SigTabMoved from to =>
      match QVector.takeAt from l with
      | Some (t, rest) => QVector.insert to t rest
      | None => None
      end
  end.

Fixpoint deliver_list {TW : Type} {container : TabWidget TW}
         (c : TW) (signals : list TabWidgetSignal) (l : list WebTab)
  : option (list WebTab) :=
  match signals with
  | [] => Some l
  | s :: rest =>
      match slot_list c s l with
      | Some l' => deliver_list c rest l'
      | None => None
      end
  end.

(** The list a drop leaves when nothing but the slots writes it: for each
    tab in turn the move is requested of the container as the loop of
    [dropMimeData] requests it, and the slots are applied to the list for
    the signals the container emits in answer, and for nothing else. *)
Fixpoint drop_replay {TW : Type} {container : TabWidget TW}
         (c : TW) (row : Z) (tabs : list WebTab) (l : list WebTab)
  : option (list WebTab) :=
  match tabs with
  | [] => Some l
  | t :: rest =>
      let from := WebTab_tabIndex c t in
      let to := if row >=? from then Int32.sub row 1 else row in
      let row' := if row >=? from then row else Int32.add row 1 in
      let answer := moveTab from to c in
      match deliver_list (fst answer) (snd answer) l with
      | Some l' => drop_replay (fst answer) row' rest l'
      | None => None
      end
  end.

(** * Properties *)

(** ** Lists under the [QVector] operations *)

Section QVectorFacts.
Context {A : Type}.
Implicit Types (v : list A) (x : A) (n : nat).

Lemma insert_at_splits n x v :
  QVector.insert_at n x v = firstn n v ++ x :: skipn n v.
Proof.
  revert v; induction n as [|n IH]; intros [|y v]; simpl; try reflexivity.
  now rewrite IH.
Qed.

Lemma remove_at_splits n v :
  QVector.remove_at n v = firstn n v ++ skipn (S n) v.
Proof.
  revert v; induction n as [|n IH]; intros [|y v]; simpl; try reflexivity.
  now rewrite IH.
Qed.

Lemma length_insert_at n x v :
  length (QVector.insert_at n x v) = S (length v).
Proof.
  revert v; induction n as [|n IH]; intros [|y v]; simpl; auto.
Qed.

Lemma length_remove_at n v :
  (n < length v)%nat -> S (length (QVector.remove_at n v)) = length v.
Proof.
  revert v; induction n as [|n IH]; intros [|y v] Hn; simpl in *; try lia.
  rewrite IH; lia.
Qed.

Lemma nth_error_insert_at n x v :
  (n <= length v)%nat -> nth_error (QVector.insert_at n x v) n = Some x.
Proof.
  revert v; induction n as [|n IH]; intros [|y v] Hn; simpl in *;
    try reflexivity; try lia.
  apply IH; lia.
Qed.

Lemma insert_at_perm n x v : Permutation (x :: v) (QVector.insert_at n x v).
Proof.
  revert v; induction n as [|n IH]; intros [|y v]; simpl; auto.
  rewrite perm_swap. now constructor.
Qed.

Lemma remove_at_perm n x v :
  nth_error v n = Some x -> Permutation v (x :: QVector.remove_at n v).
Proof.
  revert v; induction n as [|n IH]; intros [|y v] Hn; simpl in *;
    try discriminate.
  - injection Hn as ->. reflexivity.
  - rewrite perm_swap. constructor. now apply IH.
Qed.

Lemma in_bounds_true v i :
  QVector.in_bounds v i = true <-> 0 <= i < QVector.count v.
Proof.
  unfold QVector.in_bounds. rewrite andb_true_iff, Z.leb_le, Z.ltb_lt. tauto.
Qed.

Lemma value_in_bounds v i :
  0 <= i < QVector.count v ->
  QVector.value v i = nth_error v (Z.to_nat i).
Proof.
  intros Hi. unfold QVector.value.
  now rewrite (proj2 (in_bounds_true v i) Hi).
Qed.

Lemma value_out_of_bounds v i :
  i < 0 \/ QVector.count v <= i -> QVector.value v i = None.
Proof.
  intros Hi. unfold QVector.value, QVector.in_bounds.
  destruct (0 <=? i) eqn:E0; simpl; [|reflexivity].
  destruct (i <? QVector.count v) eqn:E1; [|reflexivity].
  apply Z.leb_le in E0. apply Z.ltb_lt in E1. lia.
Qed.

Lemma takeAt_in_bounds v i :
  0 <= i < QVector.count v ->
  exists x, nth_error v (Z.to_nat i) = Some x /\
            QVector.takeAt i v = Some (x, QVector.remove_at (Z.to_nat i) v).
Proof.
  intros Hi. unfold QVector.takeAt.
  rewrite (proj2 (in_bounds_true v i) Hi).
  destruct (nth_error v (Z.to_nat i)) as [x|] eqn:E.
  - now exists x.
  - apply nth_error_None in E. unfold QVector.count in Hi. lia.
Qed.

Lemma takeAt_out_of_bounds v i :
  i < 0 \/ QVector.count v <= i -> QVector.takeAt i v = None.
Proof.
  intros Hi. unfold QVector.takeAt.
  destruct (QVector.in_bounds v i) eqn:E; [|reflexivity].
  apply in_bounds_true in E. lia.
Qed.

Lemma remove_in_bounds v i :
  0 <= i < QVector.count v ->
  QVector.remove i v = Some (QVector.remove_at (Z.to_nat i) v).
Proof.
  intros Hi. unfold QVector.remove.
  now rewrite (proj2 (in_bounds_true v i) Hi).
Qed.

Lemma remove_out_of_bounds v i :
  i < 0 \/ QVector.count v <= i -> QVector.remove i v = None.
Proof.
  intros Hi. unfold QVector.remove.
  destruct (QVector.in_bounds v i) eqn:E; [|reflexivity].
  apply in_bounds_true in E. lia.
Qed.

Lemma insert_in_bounds v i x :
  0 <= i <= QVector.count v ->
  QVector.insert i x v = Some (QVector.insert_at (Z.to_nat i) x v).
Proof.
  intros Hi. unfold QVector.insert.
  replace ((0 <=? i) && (i <=? QVector.count v)) with true; [reflexivity|].
  symmetry. rewrite andb_true_iff, !Z.leb_le. lia.
Qed.

Lemma count_remove_at v n :
  (n < length v)%nat ->
  QVector.count (QVector.remove_at n v) = QVector.count v - 1.
Proof.
  intros Hn. unfold QVector.count. pose proof (length_remove_at n v Hn). lia.
Qed.

End QVectorFacts.

(** ** Wrap-around *)

Lemma wrap_in_range z : Int32.in_range z -> Int32.wrap z = z.
Proof.
  unfold Int32.in_range, Int32.INT_MIN, Int32.INT_MAX, Int32.wrap,
    Int32.of_unsigned, Int32.to_unsigned, Int32.modulus.
  change (2 ^ 32) with 4294967296. change (2 ^ 31) with 2147483648.
  intros Hz.
  destruct (Z_lt_le_dec z 0) as [Hneg|Hpos].
  - replace (z mod 4294967296) with (z + 4294967296).
    + destruct (z + 4294967296 <? 2147483648) eqn:E;
        [apply Z.ltb_lt in E|]; lia.
    + apply Z.mod_unique with (q := -1); lia.
  - rewrite Z.mod_small by lia.
    destruct (z <? 2147483648) eqn:E; [reflexivity|apply Z.ltb_ge in E; lia].
Qed.

(** ** The field query *)

Section FieldQuery.
Context {TW : Type} {container : TabWidget TW}.
Variable R : Roles.

Lemma data_of_role_unrecognized (t : WebTab) (s : WebTabState) (role : Z) :
  ~ In role (recognized_roles R) -> data_of_role R t s role = Invalid.
Proof.
  intros Hrole. unfold data_of_role.
  repeat match goal with
  | |- context [?a =? ?b] =>
      destruct (Z.eqb_spec a b) as [->|_];
      [exfalso; apply Hrole; unfold recognized_roles; simpl; tauto|]
  end.
  reflexivity.
Qed.

(** C7. [data] is a total function into [QVariant], so a query never raises
    an error; for a negative row, a row at or past the end of [m_tabs], or a
    role that is none of the case labels, the value is the invalid (empty)
    [QVariant]. The guard of [data] lets the row equal to the count through;
    that row is caught by the null test on [tab(index)]. *)
Theorem data_no_value (w : World TW) (index : QModelIndex.t) (role : Z) :
  QModelIndex.row index < 0
  \/ QVector.count (m_tabs w) <= QModelIndex.row index
  \/ ~ In role (recognized_roles R) ->
  data R w index role = Invalid.
Proof.
  intros H. unfold data.
  destruct ((QModelIndex.row index <? 0)
            || (QModelIndex.row index >? QVector.count (m_tabs w))) eqn:G;
    [reflexivity|].
  destruct H as [Hneg|[Hbig|Hrole]].
  - apply orb_false_iff in G as [G _]. apply Z.ltb_ge in G. lia.
  - unfold tab. rewrite value_out_of_bounds by (right; exact Hbig). reflexivity.
  - destruct (tab w index); [|reflexivity].
    now apply data_of_role_unrecognized.
Qed.

End FieldQuery.

(** ** The structural slots *)

Ltac run_slot :=
  unfold bind, call, get, lift, set_m_tabs, set_m_window, set_tabWidget,
    connect, log_request, ret, fault; simpl.

(** For the long bodies: reduction by value, on a world given by its
    fields, so that each step sees the fields and not the steps before. *)
Ltac run_world :=
  cbv beta iota zeta delta
    [bind call get lift set_m_tabs set_m_window set_tabWidget connect
     log_request ret fault
     tabWidget webTab m_window m_tabs m_connections calls requests].

Section Slots.
Context {TW : Type} {container : TabWidget TW}.
Variable R : Roles.

Lemma tabMoved_runs (w : World TW) (from to : Z) (t : WebTab) :
  0 <= from < QVector.count (m_tabs w) ->
  0 <= to <= QVector.count (m_tabs w) - 1 ->
  nth_error (m_tabs w) (Z.to_nat from) = Some t ->
  tabMoved from to w =
  Ok (tt, mkWorld (tabWidget w) (webTab w) (m_window w)
            (QVector.insert_at (Z.to_nat to) t
               (QVector.remove_at (Z.to_nat from) (m_tabs w)))
            (m_connections w)
            ((calls w ++ [BeginMoveRows from from
                            (if to >? from then Int32.add to 1 else to)])
               ++ [EndMoveRows])
            (requests w)).
Proof.
  intros Hfrom Hto Ht. unfold tabMoved. run_slot.
  destruct (takeAt_in_bounds (m_tabs w) from Hfrom) as (x & Hx & ->).
  rewrite Ht in Hx. injection Hx as <-. simpl.
  rewrite insert_in_bounds; [reflexivity|].
  rewrite count_remove_at; [lia|]. unfold QVector.count in Hfrom. lia.
Qed.

Lemma tabMoved_out_of_bounds (w : World TW) (from to : Z) :
  from < 0 \/ QVector.count (m_tabs w) <= from ->
  tabMoved from to w = Fault.
Proof.
  intros Hfrom. unfold tabMoved. run_slot.
  now rewrite takeAt_out_of_bounds.
Qed.

Lemma tabRemoved_runs (w : World TW) (index : Z) :
  0 <= index < QVector.count (m_tabs w) ->
  tabRemoved index w =
  Ok (tt, mkWorld (tabWidget w) (webTab w) (m_window w)
            (QVector.remove_at (Z.to_nat index) (m_tabs w))
            (m_connections w)
            ((calls w ++ [BeginRemoveRows index index]) ++ [EndRemoveRows])
            (requests w)).
Proof.
  intros Hi. unfold tabRemoved. run_slot.
  now rewrite remove_in_bounds.
Qed.

Lemma tabRemoved_out_of_bounds (w : World TW) (index : Z) :
  index < 0 \/ QVector.count (m_tabs w) <= index ->
  tabRemoved index w = Fault.
Proof.
  intros Hi. unfold tabRemoved. run_slot.
  now rewrite remove_out_of_bounds.
Qed.

Lemma tabInserted_null_window (w : World TW) (index : Z) :
  m_window w = None -> tabInserted R index w = Fault.
Proof.
  intros Hw. unfold tabInserted, bind, window_webTab. now rewrite Hw.
Qed.

Lemma tabInserted_runs (w : World TW) (index : Z) (t : WebTab) :
  m_window w <> None ->
  webTabAt (tabWidget w) index = Some t ->
  0 <= index <= QVector.count (m_tabs w) ->
  exists w',
    tabInserted R index w = Ok (tt, w') /\
    m_tabs w' = QVector.insert_at (Z.to_nat index) t (m_tabs w) /\
    tabWidget w' = tabWidget w /\ webTab w' = webTab w /\
    m_window w' = m_window w /\ requests w' = requests w /\
    calls w' = (calls w ++ [BeginInsertRows index index]) ++ [EndInsertRows].
Proof.
  destruct w as [c tabs mw v conns cs rq]. simpl. intros Hw Ht Hi.
  unfold tabInserted, window_webTab.
  destruct mw as [win|]; [clear Hw|congruence].
  run_world. rewrite Ht. rewrite insert_in_bounds by exact Hi. run_world.
  eexists; split; [reflexivity|]. simpl. repeat split.
Qed.

End Slots.

Lemma data_no_value_at_count :
  data example_roles (example_world [1%nat; 2%nat])
    (QModelIndex.make 2 0 true) (WebTabRole example_roles) = Invalid.
Proof.
  apply (data_no_value example_roles). right; left.
  unfold QVector.count; simpl; lia.
Defined.

Section Moves.
Context {TW : Type} {container : TabWidget TW}.

(** C3, as the code has it. For [from] and [to] both rows of the list (whose
    count is an [int]), [tabMoved(from, to)] returns; it announces the move
    with destination [to + 1] when [to > from] and [to] otherwise; the list
    becomes the old one with the element taken at [from] inserted at the raw
    [to]; and the tab that was at row [from] is then at row [to]. *)
Theorem tabMoved_source_lands_at_to (w : World TW) (from to : Z) :
  0 <= from < QVector.count (m_tabs w) ->
  0 <= to < QVector.count (m_tabs w) ->
  QVector.count (m_tabs w) <= Int32.INT_MAX ->
  exists w',
    tabMoved from to w = Ok (tt, w') /\
    calls w' =
      calls w ++ [BeginMoveRows from from (if to >? from then to + 1 else to);
                  EndMoveRows] /\
    (exists t rest,
        QVector.takeAt from (m_tabs w) = Some (t, rest) /\
        QVector.insert to t rest = Some (m_tabs w')) /\
    QVector.value (m_tabs w') to = QVector.value (m_tabs w) from.
Proof.
  intros Hfrom Hto Hmax.
  destruct (takeAt_in_bounds (m_tabs w) from Hfrom) as (t & Ht & Htake).
  assert (Hlen : (Z.to_nat from < length (m_tabs w))%nat)
    by (unfold QVector.count in Hfrom; lia).
  assert (Hcount := count_remove_at (m_tabs w) (Z.to_nat from) Hlen).
  eexists. split; [apply (tabMoved_runs w from to t); [assumption|lia|assumption]|].
  simpl. split; [|split].
  - rewrite <- app_assoc. simpl. do 3 f_equal.
    destruct (to >? from); [|reflexivity].
    apply wrap_in_range.
    unfold Int32.in_range, Int32.INT_MIN, Int32.INT_MAX in *. lia.
  - exists t, (QVector.remove_at (Z.to_nat from) (m_tabs w)).
    split; [exact Htake|]. apply insert_in_bounds. lia.
  - rewrite (value_in_bounds (m_tabs w) from Hfrom), Ht.
    rewrite value_in_bounds.
    + apply nth_error_insert_at.
      pose proof (length_remove_at _ _ Hlen). unfold QVector.count in Hto. lia.
    + unfold QVector.count. rewrite length_insert_at.
      pose proof (length_remove_at _ _ Hlen). unfold QVector.count in Hto. lia.
Qed.

(** C10. For [from] a row of the list and [to] an insertion position of the
    list once that row is taken out, [tabMoved(from, to)] returns and the
    list it leaves is a permutation of the one it found, of the same
    length. *)
Theorem tabMoved_permutes (w : World TW) (from to : Z) :
  0 <= from < QVector.count (m_tabs w) ->
  0 <= to <= QVector.count (m_tabs w) - 1 ->
  exists w',
    tabMoved from to w = Ok (tt, w') /\
    Permutation (m_tabs w) (m_tabs w') /\
    length (m_tabs w') = length (m_tabs w).
Proof.
  intros Hfrom Hto.
  destruct (takeAt_in_bounds (m_tabs w) from Hfrom) as (t & Ht & _).
  eexists. split; [apply (tabMoved_runs w from to t); assumption|].
  simpl. split.
  - rewrite <- insert_at_perm. now apply remove_at_perm.
  - rewrite length_insert_at. apply length_remove_at.
    unfold QVector.count in Hfrom. lia.
Qed.

End Moves.

(** C3 on the list [A; B; C; D] = [1; 2; 3; 4]: [tabMoved(0, 3)] announces
    destination 4 and leaves [B; C; D; A]. *)
Lemma tabMoved_0_3_of_4 :
  exists w',
    tabMoved 0 3 (example_world [1; 2; 3; 4]%nat) = Ok (tt, w') /\
    calls w' = [BeginMoveRows 0 0 4; EndMoveRows] /\
    m_tabs w' = [2; 3; 4; 1]%nat /\
    QVector.value (m_tabs w') 3 = Some 1%nat.
Proof.
  destruct (tabMoved_source_lands_at_to (example_world [1; 2; 3; 4]%nat) 0 3)
    as (w' & Hrun & Hcalls & _ & Hvalue).
  - unfold QVector.count; simpl; lia.
  - unfold QVector.count; simpl; lia.
  - unfold QVector.count, Int32.INT_MAX; simpl; lia.
  - exists w'. split; [exact Hrun|]. split; [exact Hcalls|].
    split; [|exact Hvalue].
    vm_compute in Hrun. injection Hrun as <-. reflexivity.
Defined.

(** C3 as stated fails: after [tabMoved(0, 3)] on [A; B; C; D] row
    [to - 1 = 2] holds [D], and [A] is at row 3. *)
Lemma tabMoved_source_not_at_to_minus_1 :
  ~ (forall (w w' : World (list WebTab)) (from to : Z),
        0 <= from < QVector.count (m_tabs w) ->
        0 <= to < QVector.count (m_tabs w) ->
        to > from ->
        tabMoved from to w = Ok (tt, w') ->
        QVector.value (m_tabs w') (to - 1) = QVector.value (m_tabs w) from).
Proof.
  intros H.
  specialize (H (example_world [1; 2; 3; 4]%nat)
                (mkWorld [1; 2; 3; 4]%nat example_tab_state (Some TheWindow)
                   [2; 3; 4; 1]%nat [] [BeginMoveRows 0 0 4; EndMoveRows] [])
                0 3).
  assert (E : Some 4%nat = Some 1%nat).
  { apply H; try reflexivity; unfold QVector.count; simpl; lia. }
  discriminate E.
Qed.

Lemma tabMoved_permutes_0_3_of_4 :
  exists w',
    tabMoved 0 3 (example_world [1; 2; 3; 4]%nat) = Ok (tt, w') /\
    Permutation [1; 2; 3; 4]%nat (m_tabs w') /\
    length (m_tabs w') = 4%nat.
Proof.
  apply (tabMoved_permutes (example_world [1; 2; 3; 4]%nat) 0 3);
    unfold QVector.count; simpl; lia.
Defined.

(** ** The model against the reference list *)

Section Tracking.
Variable R : Roles.

Local Abbreviation LWorld := (World (list WebTab)).

Lemma webTabAt_inserted (l : list WebTab) (i : Z) (t : WebTab) :
  0 <= i <= Z.of_nat (length l) ->
  webTabAt (Reference.insert_at (Z.to_nat i) t l) i = Some t.
Proof.
  intros Hi. simpl. unfold Reference.insert_at.
  rewrite <- insert_at_splits.
  replace ((0 <=? i) && (i <? Z.of_nat (length (QVector.insert_at (Z.to_nat i) t l))))
    with true.
  - apply nth_error_insert_at. lia.
  - symmetry. rewrite length_insert_at, andb_true_iff, Z.leb_le, Z.ltb_lt. lia.
Qed.

Lemma announce_keeps_in_step (op : Reference.Op) (w : LWorld) :
  in_step w ->
  Reference.in_range op (tabWidget w) = true ->
  exists w',
    announce R op w = Ok (tt, w') /\ in_step w' /\
    tabWidget w' = Reference.apply op (tabWidget w) /\
    webTab w' = webTab w.
Proof.
  intros [Hwin Hsync] Hrange.
  unfold announce, bind at 1, get, bind at 1, set_tabWidget.
  destruct op as [i t|i|from to]; simpl in Hrange |- *.
  - apply andb_true_iff in Hrange as [H0 H1].
    apply Z.leb_le in H0. apply Z.leb_le in H1.
    edestruct (tabInserted_runs R
                 (mkWorld (Reference.insert_at (Z.to_nat i) t (tabWidget w))
                    (webTab w) (m_window w) (m_tabs w) (m_connections w)
                    (calls w) (requests w)) i t)
      as (w' & Hrun & Htabs & Hc & Hh & Hw & _); simpl.
    + exact Hwin.
    + apply webTabAt_inserted. exact (conj H0 H1).
    + rewrite Hsync. unfold QVector.count. lia.
    + exists w'. split; [exact Hrun|]. simpl in *. split; [|split].
      * split; [congruence|].
        rewrite Htabs, Hc, Hsync. apply insert_at_splits.
      * exact Hc.
      * exact Hh.
  - apply andb_true_iff in Hrange as [H0 H1].
    apply Z.leb_le in H0. apply Z.ltb_lt in H1.
    rewrite tabRemoved_runs by (simpl; rewrite Hsync; unfold QVector.count; lia).
    eexists. split; [reflexivity|]. simpl. split; [|split; reflexivity].
    split; [exact Hwin|]. rewrite Hsync. apply remove_at_splits.
  - rewrite !andb_true_iff, !Z.leb_le, !Z.ltb_lt in Hrange.
    destruct Hrange as [[[Hf0 Hf1] Ht0] Ht1].
    assert (Hfrom : 0 <= from < QVector.count (m_tabs w))
      by (rewrite Hsync; unfold QVector.count; lia).
    destruct (takeAt_in_bounds (m_tabs w) from Hfrom) as (t & Ht & _).
    rewrite (tabMoved_runs _ from to t); simpl;
      [|exact Hfrom|rewrite Hsync; unfold QVector.count; lia|exact Ht].
    eexists. split; [reflexivity|]. simpl. split; [|split; reflexivity].
    split; [exact Hwin|]. unfold Reference.move. rewrite <- Hsync, Ht.
    unfold Reference.insert_at. rewrite <- insert_at_splits. simpl.
    f_equal. apply remove_at_splits.
Qed.

Lemma announce_all_keeps_in_step (ops : list Reference.Op) (w : LWorld) :
  in_step w ->
  Reference.all_in_range ops (tabWidget w) = true ->
  exists w',
    announce_all R ops w = Ok (tt, w') /\ in_step w' /\
    tabWidget w' = Reference.run ops (tabWidget w).
Proof.
  revert w; induction ops as [|op ops IH]; intros w Hstep Hrange; simpl in *.
  - exists w. split; [reflexivity|]. split; [exact Hstep|reflexivity].
  - apply andb_true_iff in Hrange as [Hop Hrest].
    destruct (announce_keeps_in_step op w Hstep Hop) as (w1 & Hrun & Hstep1 & Hc & _).
    unfold bind. rewrite Hrun.
    destruct (IH w1 Hstep1) as (w' & Hrun' & Hstep' & Hc').
    + now rewrite Hc.
    + exists w'. rewrite Hc in Hc'.
      split; [exact Hrun'|]. split; [exact Hstep'|exact Hc'].
Qed.

(** C1. A model built over a window without tabs starts empty; any sequence
    of insertions, removals and moves of the container with in-range
    indices, each announced by its signal, runs the model's slots to their
    end and leaves [m_tabs] equal to the reference list under the same
    operations: the same row count and the same tab at every row. *)
Theorem model_follows_reference_list
        (tabs : WebTab -> WebTabState) (ops : list Reference.Op) :
  Reference.all_in_range ops [] = true ->
  exists w0 w,
    TabModel_new R [] tabs = Ok (tt, w0) /\ m_tabs w0 = [] /\
    announce_all R ops w0 = Ok (tt, w) /\
    m_tabs w = Reference.run ops [] /\
    rowCount w QModelIndex.invalid = Z.of_nat (length (Reference.run ops [])) /\
    forall row : nat,
      tab w (index w (Z.of_nat row)) = nth_error (Reference.run ops []) row.
Proof.
  intros Hrange.
  set (w0 := mkWorld (TW := list WebTab) [] tabs (Some TheWindow) [] [] [] []).
  assert (Hstep : in_step w0) by (split; [discriminate|reflexivity]).
  destruct (announce_all_keeps_in_step ops w0 Hstep Hrange)
    as (w & Hrun & [_ Hsync] & Hc).
  exists w0, w. split; [reflexivity|]. split; [reflexivity|].
  split; [exact Hrun|]. simpl in Hc. rewrite <- Hc, <- Hsync.
  split; [reflexivity|]. split; [reflexivity|].
  intros row. unfold tab, index, QVector.value, QVector.in_bounds, QVector.count.
  destruct ((0 <=? Z.of_nat row) && (Z.of_nat row <? Z.of_nat (length (m_tabs w))))
    eqn:E; simpl.
  - rewrite E. now rewrite Nat2Z.id.
  - symmetry. apply nth_error_None.
    apply andb_false_iff in E as [E|E];
      [apply Z.leb_gt in E|apply Z.ltb_ge in E]; lia.
Qed.

End Tracking.

Lemma model_follows_five_operations :
  exists w0 w,
    TabModel_new example_roles [] example_tab_state = Ok (tt, w0) /\
    m_tabs w0 = [] /\
    announce_all example_roles
      [Reference.InsertTab 0 1%nat; Reference.InsertTab 1 2%nat;
       Reference.InsertTab 0 3%nat; Reference.MoveTab 0 2;
       Reference.RemoveTab 1] w0 = Ok (tt, w) /\
    m_tabs w = [1; 3]%nat /\
    rowCount w QModelIndex.invalid = 2 /\
    forall row : nat, tab w (index w (Z.of_nat row)) = nth_error [1; 3]%nat row.
Proof.
  apply (model_follows_reference_list example_roles example_tab_state
           [Reference.InsertTab 0 1%nat; Reference.InsertTab 1 2%nat;
            Reference.InsertTab 0 3%nat; Reference.MoveTab 0 2;
            Reference.RemoveTab 1]).
  reflexivity.
Defined.

(** ** After the window is destroyed *)

Section Destroyed.
Context {TW : Type} {container : TabWidget TW}.
Variable R : Roles.

Lemma dropMimeData_null_window (w : World TW) (data : QMimeData.t)
      (action : Qt.DropAction) (row column : Z) (parent : QModelIndex.t) :
  m_window w = None ->
  dropMimeData R data action row column parent w = Ok (Qt.is_ignore action, w).
Proof.
  intros Hw. unfold dropMimeData.
  destruct (Qt.is_ignore action); [reflexivity|].
  unfold bind, get. now rewrite Hw.
Qed.

Lemma window_destroyed_then_insert_faults (w : World TW) :
  exists w',
    window_destroyed w = Ok (tt, w') /\
    forall index, tabInserted R index w' = Fault.
Proof.
  eexists. split; [reflexivity|].
  intros index. now apply tabInserted_null_window.
Qed.

(** C2, as the code has it. The handler of the window's [destroyed] signal
    always returns; it resets the model, after which the window pointer is
    null, the list is empty and every row count is 0. The three structural
    slots test nothing: with the window gone [tabInserted] dereferences the
    null pointer, and [tabRemoved] and [tabMoved] find no row to take from
    the empty list. The null test is in [dropMimeData], which then changes
    nothing and accepts only the ignore action. *)
Theorem after_window_destroyed (w : World TW) :
  exists w',
    window_destroyed w = Ok (tt, w') /\
    m_window w' = None /\
    m_tabs w' = [] /\
    (forall parent, rowCount w' parent = 0) /\
    calls w' = calls w ++ [BeginResetModel; EndResetModel] /\
    (forall index, tabInserted R index w' = Fault) /\
    (forall index, tabRemoved index w' = Fault) /\
    (forall from to, tabMoved from to w' = Fault) /\
    (forall data action row column parent,
        dropMimeData R data action row column parent w'
        = Ok (Qt.is_ignore action, w')).
Proof.
  eexists. split; [reflexivity|]. simpl.
  split; [reflexivity|]. split; [reflexivity|]. split.
  { intros parent. unfold rowCount. now destruct (QModelIndex.isValid parent). }
  split; [now rewrite <- app_assoc|]. split.
  { intros index. now apply tabInserted_null_window. }
  split.
  { intros index. apply tabRemoved_out_of_bounds. simpl.
    unfold QVector.count. simpl. lia. }
  split.
  { intros from to. apply tabMoved_out_of_bounds. simpl.
    unfold QVector.count. simpl. lia. }
  intros. now apply dropMimeData_null_window.
Qed.

End Destroyed.

(** C2 as stated fails: [tabInserted(0)] arriving after the window was
    destroyed does not leave the model as it was; the call faults. *)
Lemma tabInserted_after_destroyed_is_no_noop :
  ~ (forall (w w' : World (list WebTab)) (index : Z),
        window_destroyed w = Ok (tt, w') ->
        tabInserted example_roles index w' = Ok (tt, w')).
Proof.
  intros H.
  destruct (window_destroyed_then_insert_faults example_roles
              (example_world [1; 2]%nat))
    as (w' & Hd & Hf).
  specialize (H _ w' 0 Hd). rewrite Hf in H. discriminate H.
Qed.

(** ** The stream encoding of rows *)

Lemma byte_to_of_Z (z : Z) : 0 <= z < 256 -> byte_to_Z (byte_of_Z z) = z.
Proof.
  intros Hz. unfold byte_to_Z, byte_of_Z.
  destruct (Byte.of_N (Z.to_N z)) as [b|] eqn:E.
  - apply Byte.to_of_N in E. rewrite E. lia.
  - apply Byte.of_N_None_iff in E. lia.
Qed.

Lemma land_255_bounds (z : Z) : 0 <= Z.land z 255 < 256.
Proof.
  change 255 with (Z.ones 8). rewrite Z.land_ones by lia.
  apply Z.mod_pos_bound. reflexivity.
Qed.

Lemma testbit_byte_at (u k n : Z) :
  0 <= k -> 0 <= n ->
  Z.testbit (Z.shiftl (Z.land (Z.shiftr u k) 255) k) n
  = Z.testbit u n && (k <=? n) && (n <? k + 8).
Proof.
  intros Hk Hn. change 255 with (Z.ones 8).
  rewrite Z.shiftl_spec by exact Hn.
  destruct (Z.leb_spec k n) as [Hle|Hlt].
  - rewrite Z.land_spec, Z.shiftr_spec by lia.
    rewrite Z.testbit_ones_nonneg by lia.
    replace (n - k + k) with n by lia.
    rewrite andb_true_r. f_equal.
    destruct (Z.ltb_spec (n - k) 8), (Z.ltb_spec n (k + 8)); try reflexivity; lia.
  - rewrite Z.testbit_neg_r by lia. now rewrite andb_false_r.
Qed.

Lemma testbit_above_32 (u n : Z) :
  0 <= u < 2 ^ 32 -> 32 <= n -> Z.testbit u n = false.
Proof.
  intros Hu Hn.
  destruct (Z.eq_dec u 0) as [->|Hnz]; [apply Z.bits_0|].
  apply Z.bits_above_log2; [lia|].
  assert (Z.log2 u < 32) by (apply Z.log2_lt_pow2; lia). lia.
Qed.

Lemma bytes_assemble (u : Z) :
  0 <= u < 2 ^ 32 ->
  Z.lor (Z.shiftl (Z.land (Z.shiftr u 24) 255) 24)
    (Z.lor (Z.shiftl (Z.land (Z.shiftr u 16) 255) 16)
       (Z.lor (Z.shiftl (Z.land (Z.shiftr u 8) 255) 8) (Z.land u 255))) = u.
Proof.
  intros Hu. apply Z.bits_inj'. intros n Hn.
  replace (Z.land u 255) with (Z.shiftl (Z.land (Z.shiftr u 0) 255) 0)
    by (now rewrite Z.shiftl_0_r, Z.shiftr_0_r).
  rewrite !Z.lor_spec, !testbit_byte_at by lia.
  destruct (Z_lt_le_dec n 32) as [Hlt|Hge].
  - destruct (Z.testbit u n); [simpl|reflexivity].
    destruct (Z.leb_spec 24 n), (Z.leb_spec 16 n), (Z.leb_spec 8 n),
      (Z.leb_spec 0 n), (Z.ltb_spec n (24 + 8)), (Z.ltb_spec n (16 + 8)),
      (Z.ltb_spec n (8 + 8)), (Z.ltb_spec n (0 + 8)); simpl; try reflexivity; lia.
  - rewrite (testbit_above_32 u n Hu Hge). reflexivity.
Qed.

Lemma int_of_int_bytes (i : Z) :
  Int32.in_range i ->
  let u := Int32.to_unsigned i in
  QDataStream.int_of_bytes
    (byte_of_Z (Z.land (Z.shiftr u 24) 255))
    (byte_of_Z (Z.land (Z.shiftr u 16) 255))
    (byte_of_Z (Z.land (Z.shiftr u 8) 255))
    (byte_of_Z (Z.land u 255)) = i.
Proof.
  intros Hi u. unfold QDataStream.int_of_bytes.
  rewrite !byte_to_of_Z by apply land_255_bounds.
  rewrite bytes_assemble by (apply Z.mod_pos_bound; reflexivity).
  now apply wrap_in_range.
Qed.

Lemma read_int_bytes (i : Z) (rest : QByteArray) :
  Int32.in_range i ->
  QDataStream.read_int (QDataStream.int_bytes i ++ rest) = (i, rest).
Proof.
  intros Hi. unfold QDataStream.int_bytes, QDataStream.read_int.
  cbn [app]. f_equal. now apply int_of_int_bytes.
Qed.

Lemma read_rows_int_bytes (i : Z) (rest : QByteArray) :
  Int32.in_range i ->
  read_rows (QDataStream.int_bytes i ++ rest) = i :: read_rows rest.
Proof.
  intros Hi. unfold QDataStream.int_bytes.
  cbn [app read_rows]. f_equal. now apply int_of_int_bytes.
Qed.

(** [read_rows] is the read loop of [dropMimeData] without the lookups. *)
Lemma read_rows_unfold (stream : QByteArray) :
  read_rows stream =
  if QDataStream.atEnd stream then []
  else fst (QDataStream.read_int stream)
         :: read_rows (snd (QDataStream.read_int stream)).
Proof.
  destruct stream as [|b3 [|b2 [|b1 [|b0 rest]]]]; reflexivity.
Qed.

Lemma read_tabs_unfold {TW : Type} (w : World TW) (stream : QByteArray)
      (tabs : list WebTab) :
  read_tabs w stream tabs =
  if QDataStream.atEnd stream then tabs
  else read_tabs w (snd (QDataStream.read_int stream))
         (append_tab w (fst (QDataStream.read_int stream)) tabs).
Proof.
  destruct stream as [|b3 [|b2 [|b1 [|b0 rest]]]]; reflexivity.
Qed.

Lemma read_tabs_resolve {TW : Type} (w : World TW) (stream : QByteArray) :
  forall tabs, read_tabs w stream tabs = tabs ++ resolve w (read_rows stream).
Proof.
  assert (Hone : forall idx tabs, append_tab w idx tabs = tabs ++ resolve w [idx]).
  { intros idx tabs. unfold append_tab, resolve, QVector.append. simpl.
    destruct (tab w (index w idx)); simpl; now rewrite ?app_nil_r. }
  assert (Hcons : forall idx rows, resolve w (idx :: rows)
                                   = resolve w [idx] ++ resolve w rows).
  { intros idx rows. unfold resolve. simpl. now rewrite app_nil_r. }
  assert (main : forall n stream, (length stream <= n)%nat ->
            forall tabs, read_tabs w stream tabs = tabs ++ resolve w (read_rows stream)).
  { induction n as [|n IH]; intros s Hs tabs.
    - destruct s; [simpl; now rewrite app_nil_r|simpl in Hs; lia].
    - destruct s as [|b3 [|b2 [|b1 [|b0 rest]]]]; simpl;
        try (now rewrite ?app_nil_r); try apply Hone.
      rewrite IH by (simpl in Hs; lia).
      rewrite Hone. rewrite <- app_assoc. f_equal.
      symmetry. apply Hcons. }
  intros tabs. now apply (main (length stream)).
Qed.

(** ** The drag payload *)

Lemma mimeData_stream_appends (indexes : list QModelIndex.t) :
  forall data,
    mimeData_stream indexes data
    = data ++ flat_map (fun i => QDataStream.int_bytes (QModelIndex.row i))
                (filter encoded indexes).
Proof.
  induction indexes as [|i indexes IH]; intros data;
    cbn [mimeData_stream filter].
  - cbn [flat_map]. now rewrite app_nil_r.
  - fold (encoded i). destruct (encoded i); cbn [flat_map].
    + rewrite IH. unfold QDataStream.write_int. now rewrite <- app_assoc.
    + apply IH.
Qed.

Lemma mimeData_data (indexes : list QModelIndex.t) :
  QMimeData.data (mimeData indexes) MIMETYPE = mimeData_stream indexes [].
Proof. reflexivity. Qed.

Lemma read_rows_of_ints (rows : list Z) :
  Forall Int32.in_range rows ->
  read_rows (flat_map QDataStream.int_bytes rows) = rows.
Proof.
  induction 1 as [|r rows Hr _ IH]; cbn [flat_map]; [reflexivity|].
  rewrite read_rows_int_bytes by exact Hr. now rewrite IH.
Qed.

Lemma flat_map_rows (indexes : list QModelIndex.t) :
  flat_map (fun i => QDataStream.int_bytes (QModelIndex.row i)) indexes
  = flat_map QDataStream.int_bytes (map QModelIndex.row indexes).
Proof.
  induction indexes as [|i indexes IH]; cbn [flat_map map];
    [reflexivity|now rewrite IH].
Qed.

(** C8. For indexes whose rows are [int]s, the payload [mimeData] builds
    carries the model's format; its bytes are the stream encodings of the
    rows of the indexes that are valid and in column 0, in input order; read
    back, they give exactly those rows. The other indexes leave no trace. *)
Theorem mimeData_holds_encoded_rows (indexes : list QModelIndex.t) :
  Forall (fun i => Int32.in_range (QModelIndex.row i)) indexes ->
  QMimeData.hasFormat (mimeData indexes) MIMETYPE = true /\
  QMimeData.data (mimeData indexes) MIMETYPE
  = flat_map (fun i => QDataStream.int_bytes (QModelIndex.row i))
      (filter encoded indexes) /\
  read_rows (QMimeData.data (mimeData indexes) MIMETYPE)
  = map QModelIndex.row (filter encoded indexes).
Proof.
  intros Hrows. split; [reflexivity|].
  rewrite mimeData_data, mimeData_stream_appends. simpl.
  split; [reflexivity|].
  rewrite flat_map_rows. apply read_rows_of_ints.
  apply Forall_map.
  apply Forall_forall. intros i Hi. apply filter_In in Hi as [Hi _].
  revert i Hi. now apply Forall_forall.
Qed.

Lemma mimeData_skips_invalid_and_other_columns :
  read_rows (QMimeData.data
               (mimeData [row_index 2; QModelIndex.invalid;
                          QModelIndex.make 1 1 true; row_index 0;
                          QModelIndex.make 5 0 false; row_index 3]) MIMETYPE)
  = [2; 0; 3].
Proof.
  apply (mimeData_holds_encoded_rows
           [row_index 2; QModelIndex.invalid; QModelIndex.make 1 1 true;
            row_index 0; QModelIndex.make 5 0 false; row_index 3]).
  repeat constructor; vm_compute; intros; discriminate.
Defined.

Section RoundTrip.
Context {TW : Type}.

Lemma index_of_row (w : World TW) (row : Z) :
  0 <= row < QVector.count (m_tabs w) -> index w row = row_index row.
Proof.
  intros Hr. unfold index, row_index.
  replace ((0 <=? row) && (row <? QVector.count (m_tabs w))) with true;
    [reflexivity|].
  symmetry. rewrite andb_true_iff, Z.leb_le, Z.ltb_lt. exact Hr.
Qed.

Lemma filter_encoded_rows (w : World TW) (rows : list Z) :
  Forall (fun r => 0 <= r < QVector.count (m_tabs w)) rows ->
  filter encoded (map (index w) rows) = map row_index rows.
Proof.
  induction 1 as [|r rows Hr _ IH]; simpl; [reflexivity|].
  rewrite (index_of_row w r Hr), IH.
  unfold encoded, QModelIndex.isValid. simpl.
  replace (0 <=? r) with true by (symmetry; apply Z.leb_le; lia).
  reflexivity.
Qed.

Lemma resolve_rows (w : World TW) (rows : list Z) :
  Forall (fun r => 0 <= r < QVector.count (m_tabs w)) rows ->
  map Some (resolve w rows)
  = map (fun r => nth_error (m_tabs w) (Z.to_nat r)) rows.
Proof.
  induction 1 as [|r rows Hr _ IH]; simpl; [reflexivity|].
  rewrite (index_of_row w r Hr). unfold tab, row_index. simpl.
  rewrite value_in_bounds by exact Hr.
  destruct (nth_error (m_tabs w) (Z.to_nat r)) as [t|] eqn:E.
  - simpl. f_equal. exact IH.
  - apply nth_error_None in E. unfold QVector.count in Hr. lia.
Qed.

(** C6. With a list whose count is an [int] and unchanged in between:
    encoding the model's indexes of any sequence of rows of the list with
    [mimeData] and reading the payload back as [dropMimeData] does gives the
    same rows in the same order, and the tabs the read loop collects are
    the tabs at those rows, in that order. *)
Theorem drag_payload_round_trip (w : World TW) (rows : list Z) :
  Forall (fun r => 0 <= r < QVector.count (m_tabs w)) rows ->
  QVector.count (m_tabs w) <= Int32.INT_MAX ->
  let payload := mimeData (map (index w) rows) in
  QMimeData.hasFormat payload MIMETYPE = true /\
  read_rows (QMimeData.data payload MIMETYPE) = rows /\
  map Some (read_tabs w (QMimeData.data payload MIMETYPE) [])
  = map (fun r => nth_error (m_tabs w) (Z.to_nat r)) rows.
Proof.
  intros Hrows Hmax payload. split; [reflexivity|].
  assert (Hread : read_rows (QMimeData.data payload MIMETYPE) = rows).
  { subst payload. rewrite mimeData_data, mimeData_stream_appends. simpl.
    rewrite (filter_encoded_rows w rows Hrows), flat_map_rows, map_map. simpl.
    rewrite map_id. apply read_rows_of_ints.
    eapply Forall_impl; [|exact Hrows]. simpl.
    unfold Int32.in_range, Int32.INT_MIN, Int32.INT_MAX in *. intros r Hr. lia. }
  split; [exact Hread|].
  rewrite read_tabs_resolve, Hread. simpl. now apply resolve_rows.
Qed.

End RoundTrip.

(** C6 on the rows [2; 0; 3] of a model of four tabs. *)
Lemma drag_payload_round_trip_2_0_3 :
  let w := example_world [1; 2; 3; 4]%nat in
  let payload := mimeData (map (index w) [2; 0; 3]) in
  QMimeData.hasFormat payload MIMETYPE = true /\
  read_rows (QMimeData.data payload MIMETYPE) = [2; 0; 3] /\
  map Some (read_tabs w (QMimeData.data payload MIMETYPE) [])
  = [Some 3%nat; Some 1%nat; Some 4%nat].
Proof.
  apply (drag_payload_round_trip (example_world [1; 2; 3; 4]%nat) [2; 0; 3]).
  - repeat constructor; vm_compute; intros; discriminate.
  - vm_compute; intros; discriminate.
Defined.

(** ** Dropping *)

Section Drop.
Context {TW : Type} {container : TabWidget TW}.
Variable R : Roles.

Lemma resolve_none (w : World TW) (rows : list Z) :
  Forall (fun idx => tab w (index w idx) = None) rows -> resolve w rows = [].
Proof.
  induction 1 as [|idx rows Hidx _ IH]; simpl; [reflexivity|].
  now rewrite Hidx.
Qed.

(** C4. Whenever one of the reasons of [NoDrop] holds, [dropMimeData]
    returns the value that goes with it -- true for the ignore action, false
    for every refusal -- and leaves the whole state as it was: the list is
    unchanged, nothing is announced and no move is requested. *)
Theorem dropMimeData_moves_nothing
        (w : World TW) (data : QMimeData.t) (action : Qt.DropAction)
        (row column : Z) (parent : QModelIndex.t) (b : bool) :
  NoDrop w data action column parent b ->
  dropMimeData R data action row column parent w = Ok (b, w).
Proof.
  intros H. unfold dropMimeData.
  destruct H as [->|Ha Hw|Ha Hf|Ha Hp|Ha Hc|Ha Hrows]; [reflexivity|..];
    (destruct action; try congruence; simpl; unfold bind, get).
  all: try (rewrite Hw; reflexivity).
  all: try (rewrite Hf; simpl; now rewrite orb_true_r).
  all: try (rewrite Hp; simpl; now rewrite !orb_true_r).
  all: try (replace (column =? 0) with false
             by (symmetry; now apply Z.eqb_neq);
            simpl; now rewrite !orb_true_r).
  all: rewrite read_tabs_resolve, (resolve_none w _ Hrows); simpl;
    now destruct (_ || _).
Qed.

Lemma slot_frame (s : TabWidgetSignal) (w w' : World TW) :
  slot R s w = Ok (tt, w') ->
  tabWidget w' = tabWidget w /\ requests w' = requests w /\
  exists c cs, calls w' = calls w ++ c :: cs.
Proof.
  destruct s as [index|index|from to]; simpl.
  - destruct w as [c tabs mw v conns cs rq].
    unfold tabInserted, window_webTab. run_world.
    destruct mw; [|discriminate].
    destruct (webTabAt c index); [|discriminate].
    destruct (QVector.insert index _ v); [|discriminate].
    intros H. injection H as <-. simpl. repeat split.
    rewrite <- app_assoc. simpl. eauto.
  - unfold tabRemoved. run_slot.
    destruct (QVector.remove index (m_tabs w)); [|discriminate].
    simpl. intros H. injection H as <-. simpl. repeat split.
    rewrite <- app_assoc. simpl. eauto.
  - unfold tabMoved. run_slot.
    destruct (QVector.takeAt from (m_tabs w)) as [[t rest]|]; [|discriminate].
    simpl. destruct (QVector.insert to t rest); [|discriminate].
    simpl. intros H. injection H as <-. simpl. repeat split.
    rewrite <- app_assoc. simpl. eauto.
Qed.

Lemma deliver_frame (signals : list TabWidgetSignal) :
  forall w w',
    deliver R signals w = Ok (tt, w') ->
    tabWidget w' = tabWidget w /\ requests w' = requests w /\
    exists extra, calls w' = calls w ++ extra /\
                  (extra = [] -> m_tabs w' = m_tabs w).
Proof.
  induction signals as [|s signals IH]; intros w w'; simpl.
  - intros H. injection H as <-. repeat split. exists []. now rewrite app_nil_r.
  - unfold bind. destruct (slot R s w) as [[[] w1]|] eqn:E; [|discriminate].
    intros H. apply slot_frame in E as (Hc & Hr & c & cs & Hcalls).
    apply IH in H as (Hc' & Hr' & extra & Hcalls' & _).
    split; [congruence|]. split; [congruence|].
    exists ((c :: cs) ++ extra). split.
    + rewrite Hcalls', Hcalls. now rewrite <- app_assoc.
    + discriminate.
Qed.

Lemma tabWidget_moveTab_frame (from to : Z) (w w' : World TW) :
  tabWidget_moveTab R from to w = Ok (tt, w') ->
  tabWidget w' = fst (moveTab from to (tabWidget w)) /\
  requests w' = requests w ++ [(from, to)] /\
  exists extra, calls w' = calls w ++ extra /\
                (extra = [] -> m_tabs w' = m_tabs w).
Proof.
  unfold tabWidget_moveTab. run_slot. intros H.
  apply deliver_frame in H as (Hc & Hr & extra & Hcalls & Htabs). simpl in *.
  repeat split; try assumption. now exists extra.
Qed.

Lemma move_tabs_unfold (t : WebTab) (rest : list WebTab) (row : Z) (w : World TW) :
  move_tabs R (t :: rest) row w =
  let from := WebTab_tabIndex (tabWidget w) t in
  match tabWidget_moveTab R from
          (if row >=? from then Int32.sub row 1 else row) w with
  | Ok (_, w1) =>
      move_tabs R rest (if row >=? from then row else Int32.add row 1) w1
  | Fault => Fault
  end.
Proof. reflexivity. Qed.

Lemma move_tabs_calls (tabs : list WebTab) :
  forall row w w',
    move_tabs R tabs row w = Ok (tt, w') ->
    exists extra, calls w' = calls w ++ extra /\
                  (extra = [] -> m_tabs w' = m_tabs w).
Proof.
  induction tabs as [|t rest IH]; intros row w w'.
  - simpl. intros H. injection H as <-. exists []. now rewrite app_nil_r.
  - rewrite move_tabs_unfold. cbv zeta.
    destruct (tabWidget_moveTab R _ _ w) as [[[] w1]|] eqn:E; [|discriminate].
    intros H. apply tabWidget_moveTab_frame in E as (_ & _ & e1 & Hc1 & Ht1).
    apply IH in H as (e2 & Hc2 & Ht2).
    exists (e1 ++ e2). split.
    + rewrite Hc2, Hc1. now rewrite <- app_assoc.
    + intros Hnil. apply app_eq_nil in Hnil as [-> ->].
      rewrite Ht2, Ht1; reflexivity.
Qed.

Lemma move_tabs_requests (tabs : list WebTab) :
  forall row w w',
    Int32.in_range (row - 1) ->
    Int32.in_range (row + Z.of_nat (length tabs)) ->
    move_tabs R tabs row w = Ok (tt, w') ->
    requests w' = requests w ++ reorder_requests (tabWidget w) row tabs.
Proof.
  induction tabs as [|t rest IH]; intros row w w' Hlo Hhi.
  - simpl. intros H. injection H as <-. now rewrite app_nil_r.
  - rewrite move_tabs_unfold. cbv zeta.
    destruct (tabWidget_moveTab R _ _ w) as [[[] w1]|] eqn:E; [|discriminate].
    intros H. apply tabWidget_moveTab_frame in E as (Hc & Hr & _).
    assert (Hsub : Int32.sub row 1 = row - 1) by now apply wrap_in_range.
    assert (Hadd : Int32.add row 1 = row + 1).
    { apply wrap_in_range. unfold Int32.in_range in *.
      simpl length in Hhi. lia. }
    simpl reorder_requests.
    destruct (row >=? WebTab_tabIndex (tabWidget w) t).
    + rewrite Hsub in *. apply IH in H.
      * rewrite H, Hr, Hc. now rewrite <- app_assoc.
      * exact Hlo.
      * unfold Int32.in_range in *. simpl length in Hhi. lia.
    + rewrite Hadd in *. apply IH in H.
      * rewrite H, Hr, Hc. now rewrite <- app_assoc.
      * unfold Int32.in_range in *. lia.
      * unfold Int32.in_range in *. simpl length in Hhi. lia.
Qed.

Lemma dropMimeData_outcomes (w w' : World TW) (data : QMimeData.t)
      (action : Qt.DropAction) (row column : Z) (parent : QModelIndex.t)
      (b : bool) :
  dropMimeData R data action row column parent w = Ok (b, w') ->
  (action = Qt.IgnoreAction /\ b = true /\ w' = w) \/
  (action <> Qt.IgnoreAction /\ b = false /\ w' = w) \/
  (action <> Qt.IgnoreAction /\ b = true /\
   move_tabs R (resolve w (read_rows (QMimeData.data data MIMETYPE))) row w
   = Ok (tt, w')).
Proof.
  unfold dropMimeData.
  destruct (Qt.is_ignore action) eqn:Ea.
  { intros H. injection H as <- <-. left. now destruct action. }
  assert (Ha : action <> Qt.IgnoreAction) by (intros ->; discriminate Ea).
  unfold bind at 1, get.
  destruct (_ || _).
  { intros H. injection H as <- <-. right; left. now repeat split. }
  rewrite read_tabs_resolve. simpl app.
  destruct (QVector.isEmpty _).
  { intros H. injection H as <- <-. right; left. now repeat split. }
  unfold bind, ret.
  destruct (move_tabs R _ row w) as [[[] w1]|]; [|discriminate].
  intros H. injection H as <- <-. right; right. now repeat split.
Qed.

(** C5. In a drop that succeeds (the call returns true on an action other
    than ignore), with [row - 1] and [row] plus the number of resolved tabs
    both [int]s, the [moveTab] requests the call adds are those of
    [reorder_requests]: one per resolved tab in payload order, from the
    tab's row in the container as it is at that iteration, to [row - 1] when
    the drop row is at or past that row, and else to the drop row, which is
    then one more for the next tab. *)
Theorem dropMimeData_requests
        (w w' : World TW) (data : QMimeData.t) (action : Qt.DropAction)
        (row column : Z) (parent : QModelIndex.t) :
  let tabs := resolve w (read_rows (QMimeData.data data MIMETYPE)) in
  dropMimeData R data action row column parent w = Ok (true, w') ->
  action <> Qt.IgnoreAction ->
  Int32.in_range (row - 1) ->
  Int32.in_range (row + Z.of_nat (length tabs)) ->
  requests w' = requests w ++ reorder_requests (tabWidget w) row tabs.
Proof.
  intros tabs Hdrop Ha Hlo Hhi.
  apply dropMimeData_outcomes in Hdrop
    as [(Hi & _)|[(_ & Hb & _)|(_ & _ & Hmoves)]].
  - contradiction.
  - discriminate Hb.
  - now apply (move_tabs_requests tabs row w w').
Qed.

Lemma dropMimeData_without_notification
        (w w' : World TW) (data : QMimeData.t) (action : Qt.DropAction)
        (row column : Z) (parent : QModelIndex.t) (b : bool) :
  dropMimeData R data action row column parent w = Ok (b, w') ->
  calls w' = calls w ->
  m_tabs w' = m_tabs w.
Proof.
  intros Hdrop Hcalls.
  apply dropMimeData_outcomes in Hdrop
    as [(_ & _ & ->)|[(_ & _ & ->)|(_ & _ & Hmoves)]]; try reflexivity.
  apply move_tabs_calls in Hmoves as (extra & Hextra & Htabs).
  apply Htabs. rewrite Hcalls in Hextra.
  rewrite <- (app_nil_r (calls w)) in Hextra at 1.
  apply app_inv_head in Hextra. now symmetry.
Qed.

Lemma slot_list_sound (s : TabWidgetSignal) (w w' : World TW) :
  slot R s w = Ok (tt, w') ->
  slot_list (tabWidget w) s (m_tabs w) = Some (m_tabs w') /\
  tabWidget w' = tabWidget w.
Proof.
  destruct s as [index|index|from to]; simpl.
  - destruct w as [c tabs mw v conns cs rq].
    unfold tabInserted, window_webTab. run_world.
    destruct mw; [|discriminate].
    destruct (webTabAt c index); [|discriminate].
    destruct (QVector.insert index _ v); [|discriminate].
    intros H. injection H as <-. now split.
  - unfold tabRemoved. run_slot.
    destruct (QVector.remove index (m_tabs w)); [|discriminate].
    simpl. intros H. injection H as <-. now split.
  - unfold tabMoved. run_slot.
    destruct (QVector.takeAt from (m_tabs w)) as [[t rest]|]; [|discriminate].
    simpl. destruct (QVector.insert to t rest); [|discriminate].
    simpl. intros H. injection H as <-. now split.
Qed.

Lemma deliver_list_sound (signals : list TabWidgetSignal) :
  forall w w',
    deliver R signals w = Ok (tt, w') ->
    deliver_list (tabWidget w) signals (m_tabs w) = Some (m_tabs w') /\
    tabWidget w' = tabWidget w.
Proof.
  induction signals as [|s signals IH]; intros w w'; simpl.
  - intros H. injection H as <-. now split.
  - unfold bind. destruct (slot R s w) as [[[] w1]|] eqn:E; [|discriminate].
    intros H. apply slot_list_sound in E as (Hl & Hc).
    apply IH in H as (Hl' & Hc').
    rewrite Hl, <- Hc, Hl'. split; [reflexivity|congruence].
Qed.

Lemma tabWidget_moveTab_list (from to : Z) (w w' : World TW) :
  tabWidget_moveTab R from to w = Ok (tt, w') ->
  deliver_list (fst (moveTab from to (tabWidget w)))
    (snd (moveTab from to (tabWidget w))) (m_tabs w) = Some (m_tabs w') /\
  tabWidget w' = fst (moveTab from to (tabWidget w)).
Proof.
  unfold tabWidget_moveTab. run_slot. intros H.
  apply deliver_list_sound in H as (Hl & Hc). simpl in *. now split.
Qed.

Lemma move_tabs_replay (tabs : list WebTab) :
  forall row w w',
    move_tabs R tabs row w = Ok (tt, w') ->
    drop_replay (tabWidget w) row tabs (m_tabs w) = Some (m_tabs w').
Proof.
  induction tabs as [|t rest IH]; intros row w w'.
  - simpl. intros H. now injection H as <-.
  - rewrite move_tabs_unfold. cbv zeta.
    destruct (tabWidget_moveTab R _ _ w) as [[[] w1]|] eqn:E; [|discriminate].
    intros H. apply tabWidget_moveTab_list in E as (Hl & Hc).
    apply IH in H. cbn [drop_replay]. cbv zeta.
    rewrite Hl, <- Hc. exact H.
Qed.

(** C9, as the code has it. [dropMimeData] has no write to [m_tabs] of its
    own. Whatever the payload, action, row, column and parent, when the call
    returns: on the ignore action and on every refusal the whole state is
    the one the call found; on an accepted drop the list is the list found
    with the model's slots applied, request by request, for the signals the
    container emitted in answer to the [moveTab] requests of the loop, and
    with nothing else done to it. *)
Theorem dropMimeData_writes_list_only_in_slots
        (w w' : World TW) (data : QMimeData.t) (action : Qt.DropAction)
        (row column : Z) (parent : QModelIndex.t) (b : bool) :
  dropMimeData R data action row column parent w = Ok (b, w') ->
  if Qt.is_ignore action || negb b
  then w' = w
  else drop_replay (tabWidget w) row
         (resolve w (read_rows (QMimeData.data data MIMETYPE))) (m_tabs w)
       = Some (m_tabs w').
Proof.
  intros Hdrop.
  apply dropMimeData_outcomes in Hdrop
    as [(-> & -> & ->)|[(Ha & -> & ->)|(Ha & -> & Hmoves)]].
  - reflexivity.
  - now rewrite orb_true_r.
  - replace (Qt.is_ignore action) with false by (now destruct action).
    cbn [negb orb]. now apply move_tabs_replay.
Qed.

End Drop.

(** C4 on a payload whose only row, 7, is past the two tabs of the model. *)
Lemma dropMimeData_refuses_row_out_of_bounds :
  dropMimeData example_roles (mimeData [row_index 7]) Qt.MoveAction 1 0
    QModelIndex.invalid (example_world [1; 2]%nat)
  = Ok (false, example_world [1; 2]%nat).
Proof.
  apply (dropMimeData_moves_nothing example_roles).
  apply NoDrop_unresolved; [discriminate|].
  repeat constructor.
Defined.

(** C5 on the tabs [A; B; C; D] = [1; 2; 3; 4] with rows 0 and 2 dropped at
    row 4: [A] goes from 0 to 3, then [C], now at row 1, goes to 3. *)
Lemma dropMimeData_requests_0_2_at_4 :
  let w := example_world [1; 2; 3; 4]%nat in
  let data := mimeData [row_index 0; row_index 2] in
  exists w',
    dropMimeData example_roles data Qt.MoveAction 4 0 QModelIndex.invalid w
    = Ok (true, w') /\
    requests w' =
      requests w ++ reorder_requests (tabWidget w) 4
                      (resolve w (read_rows (QMimeData.data data MIMETYPE))) /\
    requests w' = [(0, 3); (1, 3)].
Proof.
  intros w data.
  assert (Hrun : exists w',
             dropMimeData example_roles data Qt.MoveAction 4 0
               QModelIndex.invalid w = Ok (true, w') /\
             requests w' = [(0, 3); (1, 3)]).
  { eexists. split; vm_compute; reflexivity. }
  destruct Hrun as (w' & Hrun & Hreq).
  exists w'. split; [exact Hrun|]. split; [|exact Hreq].
  apply (dropMimeData_requests example_roles w w' data Qt.MoveAction 4 0
           QModelIndex.invalid Hrun).
  - discriminate.
  - vm_compute. split; intros; discriminate.
  - vm_compute. split; intros; discriminate.
Defined.

(** C9 on the tabs [A; B] = [1; 2] with row 0 dropped at row 2: the one
    request is the move from 0 to 1, and the list after the drop is the
    list with the [tabMoved] slot applied for it. *)
Lemma dropMimeData_replays_move_0_1 :
  let w := example_world [1; 2]%nat in
  let data := mimeData [row_index 0] in
  exists w',
    dropMimeData example_roles data Qt.MoveAction 2 0 QModelIndex.invalid w
    = Ok (true, w') /\
    drop_replay (tabWidget w) 2
      (resolve w (read_rows (QMimeData.data data MIMETYPE))) (m_tabs w)
    = Some (m_tabs w') /\
    m_tabs w' = [2; 1]%nat.
Proof.
  intros w data.
  assert (Hrun : exists w',
             dropMimeData example_roles data Qt.MoveAction 2 0
               QModelIndex.invalid w = Ok (true, w') /\
             m_tabs w' = [2; 1]%nat).
  { eexists. split; vm_compute; reflexivity. }
  destruct Hrun as (w' & Hrun & Htabs).
  exists w'. split; [exact Hrun|]. split; [|exact Htabs].
  exact (dropMimeData_writes_list_only_in_slots example_roles w w' data
           Qt.MoveAction 2 0 QModelIndex.invalid true Hrun).
Defined.

(** C9 as stated fails: dropping row 0 of [A; B] at row 2 requests the move
    from 0 to 1; the container performs it and emits [tabMoved(0, 1)]; the
    slot runs before [dropMimeData] returns, and the list is [B; A]. *)
Lemma dropMimeData_list_differs_after_call :
  ~ (forall (w w' : World (list WebTab)) (data : QMimeData.t)
            (action : Qt.DropAction) (row column : Z)
            (parent : QModelIndex.t) (b : bool),
        dropMimeData example_roles data action row column parent w
        = Ok (b, w') ->
        m_tabs w' = m_tabs w).
Proof.
  intros H.
  specialize (H (example_world [1; 2]%nat)
                (mkWorld [2; 1]%nat example_tab_state (Some TheWindow)
                   [2; 1]%nat [] [BeginMoveRows 0 0 2; EndMoveRows] [(0, 1)])
                (mimeData [row_index 0]) Qt.MoveAction 2 0
                QModelIndex.invalid true).
  assert (E : [2; 1]%nat = [1; 2]%nat) by (apply H; vm_compute; reflexivity).
  discriminate E.
Qed.

(** * Further properties of the model *)

(** ** Looking tabs up *)

Lemma index_from_not_In (x : WebTab) (v : list WebTab) :
  forall k, ~ In x v -> QVector.index_from Nat.eqb x v k = -1.
Proof.
  induction v as [|y v IH]; intros k Hx; simpl; [reflexivity|].
  destruct (Nat.eqb_spec y x) as [->|_].
  - exfalso. apply Hx. now left.
  - apply IH. intros Hin. apply Hx. now right.
Qed.

Lemma index_from_In (x : WebTab) (v : list WebTab) :
  forall k, In x v ->
    exists n, (n < length v)%nat /\
              QVector.index_from Nat.eqb x v k = k + Z.of_nat n /\
              nth_error v n = Some x /\
              forall m, (m < n)%nat -> nth_error v m <> Some x.
Proof.
  induction v as [|y v IH]; intros k Hx; simpl in *; [contradiction|].
  destruct (Nat.eqb_spec y x) as [->|Hne].
  - exists 0%nat. repeat split; try lia.
  - destruct Hx as [Hx|Hx]; [congruence|].
    destruct (IH (k + 1) Hx) as (n & Hn & Hidx & Hnth & Hfirst).
    exists (S n). repeat split; simpl; try lia; try assumption.
    intros [|m] Hm; simpl; [congruence|]. apply Hfirst. lia.
Qed.

Lemma nth_error_NoDup_unique (v : list WebTab) (x : WebTab) (n m : nat) :
  NoDup v -> nth_error v n = Some x -> nth_error v m = Some x -> n = m.
Proof.
  intros Hnd Hn Hm.
  apply (proj1 (NoDup_nth_error v) Hnd).
  - apply nth_error_Some. congruence.
  - congruence.
Qed.

Section Lookup.
Context {TW : Type}.
Implicit Types (w : World TW) (t : WebTab).

Lemma tab_of_tabIndex_row w t :
  In t (m_tabs w) ->
  exists row, 0 <= row < QVector.count (m_tabs w) /\ tabIndex w t = row_index row.
Proof.
  intros Hin.
  destruct (index_from_In t (m_tabs w) 0 Hin) as (n & Hn & Hidx & _).
  exists (Z.of_nat n). split; [unfold QVector.count; lia|].
  unfold tabIndex, QVector.indexOf. rewrite Hidx. simpl.
  destruct (Z.ltb_spec (Z.of_nat n) 0); [lia|].
  unfold index, row_index.
  replace ((0 <=? Z.of_nat n) && (Z.of_nat n <? QVector.count (m_tabs w)))
    with true; [reflexivity|].
  symmetry. rewrite andb_true_iff, Z.leb_le, Z.ltb_lt.
  unfold QVector.count. lia.
Qed.

(** X1. For a tab of the list, [tabIndex] gives the model index of a row of
    the list, column 0, and [tab] of that index is the tab again. *)
Theorem tab_of_tabIndex w t :
  In t (m_tabs w) ->
  exists row,
    0 <= row < QVector.count (m_tabs w) /\
    tabIndex w t = row_index row /\
    tab w (tabIndex w t) = Some t.
Proof.
  intros Hin.
  destruct (index_from_In t (m_tabs w) 0 Hin) as (n & Hn & Hidx & Hnth & _).
  assert (Hrow : 0 <= Z.of_nat n < QVector.count (m_tabs w))
    by (unfold QVector.count; lia).
  assert (Htab : tabIndex w t = row_index (Z.of_nat n)).
  { unfold tabIndex, QVector.indexOf. rewrite Hidx. simpl.
    destruct (Z.ltb_spec (Z.of_nat n) 0); [lia|].
    unfold index, row_index.
    replace ((0 <=? Z.of_nat n) && (Z.of_nat n <? QVector.count (m_tabs w)))
      with true; [reflexivity|].
    symmetry. rewrite andb_true_iff, Z.leb_le, Z.ltb_lt. exact Hrow. }
  exists (Z.of_nat n). split; [exact Hrow|]. split; [exact Htab|].
  rewrite Htab. unfold tab, row_index. simpl.
  rewrite value_in_bounds by exact Hrow. now rewrite Nat2Z.id.
Qed.

(** X2. [tabIndex] gives a valid index exactly for the tabs of the list;
    for any other tab it gives [QModelIndex()]. *)
Theorem tabIndex_valid_iff w t :
  (QModelIndex.isValid (tabIndex w t) = true <-> In t (m_tabs w)) /\
  (~ In t (m_tabs w) -> tabIndex w t = QModelIndex.invalid).
Proof.
  assert (Hout : ~ In t (m_tabs w) -> tabIndex w t = QModelIndex.invalid).
  { intros Hx. unfold tabIndex, QVector.indexOf.
    now rewrite index_from_not_In. }
  split; [split|exact Hout].
  - intros Hv. destruct (in_dec Nat.eq_dec t (m_tabs w)) as [Hin|Hx];
      [exact Hin|]. rewrite (Hout Hx) in Hv. discriminate Hv.
  - intros Hin. destruct (tab_of_tabIndex_row w t Hin) as (row & Hrow & ->).
    unfold QModelIndex.isValid, row_index. simpl.
    replace (0 <=? row) with true by (symmetry; apply Z.leb_le; lia).
    reflexivity.
Qed.

(** X3. In a list without repeated tabs, the index of the tab at a row is
    the index of that row: [tabIndex(tab(index(row)))] is [index(row)]. *)
Theorem tabIndex_of_tab w t (row : Z) :
  NoDup (m_tabs w) ->
  tab w (index w row) = Some t ->
  tabIndex w t = index w row.
Proof.
  intros Hnd Ht.
  assert (Hrow : 0 <= row < QVector.count (m_tabs w)).
  { unfold index in Ht.
    destruct ((0 <=? row) && (row <? QVector.count (m_tabs w))) eqn:E.
    - apply andb_true_iff in E as [E0 E1].
      apply Z.leb_le in E0. apply Z.ltb_lt in E1. lia.
    - unfold tab in Ht. simpl in Ht.
      rewrite value_out_of_bounds in Ht by lia. discriminate Ht. }
  rewrite (index_of_row w row Hrow) in Ht |- *.
  unfold tab, row_index in Ht. simpl in Ht.
  rewrite value_in_bounds in Ht by exact Hrow.
  assert (Hin : In t (m_tabs w)) by (eapply nth_error_In; exact Ht).
  destruct (index_from_In t (m_tabs w) 0 Hin) as (n & Hn & Hidx & Hnth & _).
  assert (En : n = Z.to_nat row)
    by (eapply nth_error_NoDup_unique; eassumption).
  unfold tabIndex, QVector.indexOf. rewrite Hidx. simpl.
  destruct (Z.ltb_spec (Z.of_nat n) 0); [lia|].
  replace (Z.of_nat n) with row by lia.
  now apply index_of_row.
Qed.

End Lookup.

(** ** Flags and fields *)

Section Fields.
Context {TW : Type}.
Variable R : Roles.
Implicit Types (w : World TW) (index : QModelIndex.t).

(** X4. No index is editable; the invalid index (the root) accepts drops
    and nothing else; a valid index is enabled, selectable and draggable,
    and accepts no drop. *)
Theorem flags_by_validity w index :
  Z.land (flags w index) Qt.ItemIsEditable = 0 /\
  (QModelIndex.isValid index = false ->
   flags w index = Qt.ItemIsDropEnabled) /\
  (QModelIndex.isValid index = true ->
   Z.land (flags w index) Qt.ItemIsDropEnabled = 0 /\
   Z.land (flags w index) Qt.ItemIsEnabled = Qt.ItemIsEnabled /\
   Z.land (flags w index) Qt.ItemIsSelectable = Qt.ItemIsSelectable /\
   Z.land (flags w index) Qt.ItemIsDragEnabled = Qt.ItemIsDragEnabled).
Proof.
  unfold flags. destruct (QModelIndex.isValid index); simpl.
  - split; [reflexivity|]. split; [discriminate|]. intros _. now repeat split.
  - split; [reflexivity|]. split; [reflexivity|discriminate].
Qed.

Lemma tab_Some_guard w index t :
  tab w index = Some t ->
  (QModelIndex.row index <? 0)
  || (QModelIndex.row index >? QVector.count (m_tabs w)) = false.
Proof.
  unfold tab, QVector.value. intros Ht.
  destruct (QVector.in_bounds (m_tabs w) (QModelIndex.row index)) eqn:E;
    [|discriminate].
  apply in_bounds_true in E. apply orb_false_iff. split.
  - apply Z.ltb_ge. lia.
  - rewrite Z.gtb_ltb. apply Z.ltb_ge. lia.
Qed.

Ltac distinct_labels H :=
  unfold recognized_roles in H;
  repeat match goal with
  | Hnd : NoDup (_ :: _) |- _ => inversion Hnd; subst; clear Hnd
  | Hnd : NoDup [] |- _ => clear Hnd
  end;
  repeat match goal with
  | Hn : ~ In _ _ |- _ => cbn [In] in Hn
  end.

Ltac other_label :=
  let E := fresh "E" in
  let E' := fresh "E" in
  intro E; pose proof (eq_sym E) as E';
  match goal with
  | Hn : ~ _ |- _ =>
      solve [apply Hn;
             repeat match goal with
                    | |- _ \/ _ => first [left; assumption | right]
                    end]
  end.

Ltac pick_label :=
  unfold data_of_role;
  repeat first
    [ rewrite Z.eqb_refl; cbn [orb]
    | match goal with
      | |- context [?a =? ?b] =>
          replace (a =? b) with false
            by (symmetry; apply Z.eqb_neq; other_label);
          cbn [orb]
      end ];
  reflexivity.

(** X5. With the case labels of [data] pairwise distinct, on an index whose
    row has a tab every label gives the field of that tab it names: the tab
    itself, its title for the title and display roles, its icon for the
    icon and decoration roles, and the tab's six flags. *)
Theorem data_by_role w index t :
  NoDup (recognized_roles R) ->
  tab w index = Some t ->
  let s := webTab w t in
  data R w index (WebTabRole R) = FromWebTab t /\
  data R w index (TitleRole R) = FromString (title s) /\
  data R w index Qt.DisplayRole = FromString (title s) /\
  data R w index (IconRole R) = FromIcon (icon s) /\
  data R w index Qt.DecorationRole = FromIcon (icon s) /\
  data R w index (PinnedRole R) = FromBool (isPinned s) /\
  data R w index (RestoredRole R) = FromBool (isRestored s) /\
  data R w index (CurrentTabRole R) = FromBool (isCurrentTab s) /\
  data R w index (LoadingRole R) = FromBool (isLoading s) /\
  data R w index (AudioPlayingRole R) = FromBool (isPlaying s) /\
  data R w index (AudioMutedRole R) = FromBool (isMuted s).
Proof.
  intros Hnd Ht s. unfold data.
  rewrite (tab_Some_guard w index t Ht), Ht. fold s.
  distinct_labels Hnd.
  repeat split; pick_label.
Qed.

End Fields.

Lemma data_by_role_second_tab :
  let w := example_world [1; 2]%nat in
  let s := webTab w 2%nat in
  data example_roles w (row_index 1) (WebTabRole example_roles) = FromWebTab 2%nat /\
  data example_roles w (row_index 1) (TitleRole example_roles) = FromString (title s) /\
  data example_roles w (row_index 1) Qt.DisplayRole = FromString (title s) /\
  data example_roles w (row_index 1) (IconRole example_roles) = FromIcon (icon s) /\
  data example_roles w (row_index 1) Qt.DecorationRole = FromIcon (icon s) /\
  data example_roles w (row_index 1) (PinnedRole example_roles) = FromBool (isPinned s) /\
  data example_roles w (row_index 1) (RestoredRole example_roles) = FromBool (isRestored s) /\
  data example_roles w (row_index 1) (CurrentTabRole example_roles) = FromBool (isCurrentTab s) /\
  data example_roles w (row_index 1) (LoadingRole example_roles) = FromBool (isLoading s) /\
  data example_roles w (row_index 1) (AudioPlayingRole example_roles) = FromBool (isPlaying s) /\
  data example_roles w (row_index 1) (AudioMutedRole example_roles) = FromBool (isMuted s).
Proof.
  apply (data_by_role example_roles (example_world [1; 2]%nat) (row_index 1)
           2%nat).
  - unfold recognized_roles.
    repeat (constructor; [simpl; intuition discriminate|]). constructor.
  - reflexivity.
Defined.

Lemma tab_of_tabIndex_second :
  exists row,
    0 <= row < QVector.count (m_tabs (example_world [1; 2; 3]%nat)) /\
    tabIndex (example_world [1; 2; 3]%nat) 2%nat = row_index row /\
    tab (example_world [1; 2; 3]%nat)
      (tabIndex (example_world [1; 2; 3]%nat) 2%nat) = Some 2%nat.
Proof.
  apply (tab_of_tabIndex (example_world [1; 2; 3]%nat) 2%nat).
  simpl. tauto.
Defined.

Lemma tabIndex_of_tab_second :
  tabIndex (example_world [1; 2; 3]%nat) 2%nat
  = index (example_world [1; 2; 3]%nat) 1.
Proof.
  apply (tabIndex_of_tab (example_world [1; 2; 3]%nat) 2%nat 1).
  - simpl. repeat (constructor; [simpl; intuition discriminate|]). constructor.
  - reflexivity.
Defined.

(** ** What a slot does to the rows *)

Section RowFacts.
Context {A : Type}.
Implicit Types (v : list A) (x : A) (n i : nat).

Lemma nth_error_insert_at_below n x v i :
  (i < n)%nat -> (n <= length v)%nat ->
  nth_error (QVector.insert_at n x v) i = nth_error v i.
Proof.
  revert v i; induction n as [|n IH]; intros [|y v] [|i] Hi Hn; simpl in *;
    try lia; try reflexivity.
  apply IH; lia.
Qed.

Lemma nth_error_insert_at_above n x v i :
  (n <= i)%nat -> (n <= length v)%nat ->
  nth_error (QVector.insert_at n x v) (S i) = nth_error v i.
Proof.
  revert v i; induction n as [|n IH]; intros [|y v] [|i] Hi Hn; simpl in *;
    try lia; try reflexivity.
  apply IH; lia.
Qed.

Lemma nth_error_remove_at_below n v i :
  (i < n)%nat -> nth_error (QVector.remove_at n v) i = nth_error v i.
Proof.
  revert v i; induction n as [|n IH]; intros [|y v] [|i] Hi; simpl in *;
    try lia; try reflexivity.
  apply IH; lia.
Qed.

Lemma nth_error_remove_at_above n v i :
  (n <= i)%nat -> nth_error (QVector.remove_at n v) i = nth_error v (S i).
Proof.
  revert v i; induction n as [|n IH]; intros [|y v] i Hi.
  - now destruct i.
  - reflexivity.
  - now destruct i.
  - destruct i as [|i]; [lia|].
    change (nth_error (QVector.remove_at n v) i = nth_error v (S i)).
    apply IH; lia.
Qed.

Lemma remove_at_insert_at n x v :
  (n <= length v)%nat -> QVector.remove_at n (QVector.insert_at n x v) = v.
Proof.
  revert v; induction n as [|n IH]; intros [|y v] Hn; simpl in *;
    try lia; try reflexivity.
  rewrite IH by lia. reflexivity.
Qed.

Lemma insert_at_remove_at n x v :
  nth_error v n = Some x -> QVector.insert_at n x (QVector.remove_at n v) = v.
Proof.
  revert v; induction n as [|n IH]; intros [|y v] Hn; simpl in *;
    try discriminate.
  - now injection Hn as ->.
  - rewrite IH by exact Hn. reflexivity.
Qed.

Lemma value_nonneg v (i : Z) :
  0 <= i -> QVector.value v i = nth_error v (Z.to_nat i).
Proof.
  intros Hi. destruct (Z_lt_le_dec i (QVector.count v)) as [Hlt|Hge].
  - apply value_in_bounds. lia.
  - rewrite value_out_of_bounds by lia. symmetry.
    apply nth_error_None. unfold QVector.count in Hge. lia.
Qed.

Lemma insert_None_iff v (i : Z) x :
  QVector.insert i x v = None <-> ~ (0 <= i <= QVector.count v).
Proof.
  unfold QVector.insert.
  destruct ((0 <=? i) && (i <=? QVector.count v)) eqn:E.
  - apply andb_true_iff in E as [E0 E1].
    apply Z.leb_le in E0. apply Z.leb_le in E1.
    split; [discriminate|]. intros H. exfalso. apply H. lia.
  - split; [|reflexivity]. intros _ H.
    apply andb_false_iff in E as [E|E]; apply Z.leb_gt in E; lia.
Qed.

Lemma in_bounds_false v (i : Z) :
  QVector.in_bounds v i = false <-> ~ (0 <= i < QVector.count v).
Proof.
  pose proof (in_bounds_true v i) as H.
  destruct (QVector.in_bounds v i).
  - split; [discriminate|]. intros Hn. exfalso. apply Hn. now apply H.
  - split; [|reflexivity]. intros _ Hi. apply H in Hi. discriminate Hi.
Qed.

End RowFacts.

Section SlotEffects.
Context {TW : Type} {container : TabWidget TW}.
Variable R : Roles.
Implicit Types (w : World TW).

Lemma tabInserted_result w (index : Z) (t : WebTab) :
  m_window w <> None ->
  webTabAt (tabWidget w) index = Some t ->
  0 <= index <= QVector.count (m_tabs w) ->
  tabInserted R index w =
  Ok (tt, mkWorld (tabWidget w) (webTab w) (m_window w)
            (QVector.insert_at (Z.to_nat index) t (m_tabs w))
            (m_connections w ++ tab_connections R t)
            (calls w ++ notification (SigTabInserted index))
            (requests w)).
Proof.
  destruct w as [c tabs mw v conns cs rq]. simpl. intros Hw Ht Hi.
  unfold tabInserted, window_webTab.
  destruct mw as [win|]; [clear Hw|congruence].
  run_world. rewrite Ht. rewrite insert_in_bounds by exact Hi. run_world.
  unfold tab_connections. rewrite <- !app_assoc. reflexivity.
Qed.

(** X6. With the window alive, a tab at [index] in the container and
    [index] an insertion position of the list, [tabInserted(index)]
    returns; the list is one longer, holds that tab at row [index], keeps
    the rows below [index] and moves every row from [index] on one up; the
    calls made are the begin/end pair for row [index]; and the tab's ten
    change connections are added after the existing ones. *)
Theorem tabInserted_rows w (index : Z) (t : WebTab) :
  m_window w <> None ->
  webTabAt (tabWidget w) index = Some t ->
  0 <= index <= QVector.count (m_tabs w) ->
  exists w',
    tabInserted R index w = Ok (tt, w') /\
    QVector.count (m_tabs w') = QVector.count (m_tabs w) + 1 /\
    QVector.value (m_tabs w') index = Some t /\
    (forall i, 0 <= i < index ->
               QVector.value (m_tabs w') i = QVector.value (m_tabs w) i) /\
    (forall i, index <= i ->
               QVector.value (m_tabs w') (i + 1) = QVector.value (m_tabs w) i) /\
    calls w' = calls w ++ [BeginInsertRows index index; EndInsertRows] /\
    m_connections w' = m_connections w ++ tab_connections R t.
Proof.
  intros Hw Ht Hi. eexists. split; [apply (tabInserted_result w index t); assumption|]. simpl.
  assert (Hn : (Z.to_nat index <= length (m_tabs w))%nat)
    by (unfold QVector.count in Hi; lia).
  split; [unfold QVector.count; rewrite length_insert_at; lia|].
  split; [rewrite value_nonneg by lia; now apply nth_error_insert_at|].
  split; [|split; [|split; reflexivity]].
  - intros i Hlt. rewrite !value_nonneg by lia.
    apply nth_error_insert_at_below; lia.
  - intros i Hge. rewrite !value_nonneg by lia.
    replace (Z.to_nat (i + 1)) with (S (Z.to_nat i)) by lia.
    apply nth_error_insert_at_above; lia.
Qed.

(** X7. For [index] a row of the list, [tabRemoved(index)] returns; the
    list is one shorter, keeps the rows below [index] and moves every row
    after [index] one down; the calls made are the begin/end pair for row
    [index]; the connections of the removed tab stay. *)
Theorem tabRemoved_rows w (index : Z) :
  0 <= index < QVector.count (m_tabs w) ->
  exists w',
    tabRemoved index w = Ok (tt, w') /\
    QVector.count (m_tabs w') = QVector.count (m_tabs w) - 1 /\
    (forall i, 0 <= i < index ->
               QVector.value (m_tabs w') i = QVector.value (m_tabs w) i) /\
    (forall i, index <= i ->
               QVector.value (m_tabs w') i = QVector.value (m_tabs w) (i + 1)) /\
    calls w' = calls w ++ [BeginRemoveRows index index; EndRemoveRows] /\
    m_connections w' = m_connections w.
Proof.
  intros Hi. eexists. split; [now apply tabRemoved_runs|]. simpl.
  split; [apply count_remove_at; unfold QVector.count in Hi; lia|].
  split; [|split; [|split; [now rewrite <- app_assoc|reflexivity]]].
  - intros i Hlt. rewrite !value_nonneg by lia.
    apply nth_error_remove_at_below; lia.
  - intros i Hge. rewrite !value_nonneg by lia.
    replace (Z.to_nat (i + 1)) with (S (Z.to_nat i)) by lia.
    apply nth_error_remove_at_above; lia.
Qed.

(** X8. An insertion followed by the removal at the same index leaves the
    list as it was before the two. *)
Theorem tabInserted_then_tabRemoved w (index : Z) (t : WebTab) :
  m_window w <> None ->
  webTabAt (tabWidget w) index = Some t ->
  0 <= index <= QVector.count (m_tabs w) ->
  exists w1 w2,
    tabInserted R index w = Ok (tt, w1) /\
    tabRemoved index w1 = Ok (tt, w2) /\
    m_tabs w2 = m_tabs w.
Proof.
  intros Hw Ht Hi. eexists. eexists.
  split; [apply (tabInserted_result w index t); assumption|].
  assert (Hn : (Z.to_nat index <= length (m_tabs w))%nat)
    by (unfold QVector.count in Hi; lia).
  split.
  - apply tabRemoved_runs. simpl. unfold QVector.count in *.
    rewrite length_insert_at. lia.
  - simpl. now apply remove_at_insert_at.
Qed.

(** X9. For two rows of the list, moving one to the other and then back
    leaves the list as it was. *)
Theorem tabMoved_there_and_back w (from to : Z) :
  0 <= from < QVector.count (m_tabs w) ->
  0 <= to < QVector.count (m_tabs w) ->
  exists w1 w2,
    tabMoved from to w = Ok (tt, w1) /\
    tabMoved to from w1 = Ok (tt, w2) /\
    m_tabs w2 = m_tabs w.
Proof.
  intros Hfrom Hto.
  destruct (takeAt_in_bounds (m_tabs w) from Hfrom) as (t & Ht & _).
  assert (Hlen : (Z.to_nat from < length (m_tabs w))%nat)
    by (unfold QVector.count in Hfrom; lia).
  pose proof (length_remove_at _ _ Hlen) as Hrem.
  assert (Hton : (Z.to_nat to <= length (QVector.remove_at (Z.to_nat from) (m_tabs w)))%nat)
    by (unfold QVector.count in Hto; lia).
  eexists. eexists.
  split; [apply (tabMoved_runs w from to t); [assumption|lia|assumption]|].
  split.
  - apply (tabMoved_runs _ to from t); simpl.
    + unfold QVector.count. rewrite length_insert_at.
      unfold QVector.count in Hto. lia.
    + unfold QVector.count. rewrite length_insert_at.
      unfold QVector.count in Hfrom. lia.
    + now apply nth_error_insert_at.
  - simpl. rewrite remove_at_insert_at by exact Hton.
    now apply insert_at_remove_at.
Qed.

(** X10. [tabMoved(from, from)] on a row of the list leaves the list as it
    is, and still announces a move of the row, with the row itself as
    destination. *)
Theorem tabMoved_to_itself w (from : Z) :
  0 <= from < QVector.count (m_tabs w) ->
  exists w',
    tabMoved from from w = Ok (tt, w') /\
    m_tabs w' = m_tabs w /\
    calls w' = calls w ++ [BeginMoveRows from from from; EndMoveRows].
Proof.
  intros Hfrom.
  destruct (takeAt_in_bounds (m_tabs w) from Hfrom) as (t & Ht & _).
  eexists.
  split; [apply (tabMoved_runs w from from t); [assumption|lia|assumption]|].
  simpl. split; [now apply insert_at_remove_at|].
  rewrite <- app_assoc. simpl.
  replace (from >? from) with false; [reflexivity|].
  symmetry. rewrite Z.gtb_ltb. apply Z.ltb_irrefl.
Qed.

(** X11. A move between two rows of the list leaves every row outside the
    span from the lower to the higher of the two where it was. *)
Theorem tabMoved_outside_span w (from to : Z) :
  0 <= from < QVector.count (m_tabs w) ->
  0 <= to < QVector.count (m_tabs w) ->
  exists w',
    tabMoved from to w = Ok (tt, w') /\
    forall i, 0 <= i -> i < Z.min from to \/ Z.max from to < i ->
              QVector.value (m_tabs w') i = QVector.value (m_tabs w) i.
Proof.
  intros Hfrom Hto.
  destruct (takeAt_in_bounds (m_tabs w) from Hfrom) as (t & Ht & _).
  assert (Hlen : (Z.to_nat from < length (m_tabs w))%nat)
    by (unfold QVector.count in Hfrom; lia).
  pose proof (length_remove_at _ _ Hlen) as Hrem.
  eexists.
  split; [apply (tabMoved_runs w from to t); [assumption|lia|assumption]|].
  simpl. intros i Hi Hout. rewrite !value_nonneg by lia.
  destruct Hout as [Hlow|Hhigh].
  - rewrite nth_error_insert_at_below
      by (unfold QVector.count in Hto; lia).
    apply nth_error_remove_at_below. lia.
  - destruct (Z.to_nat i) as [|j] eqn:Ej; [lia|].
    rewrite nth_error_insert_at_above
      by (unfold QVector.count in Hto; lia).
    apply nth_error_remove_at_above. lia.
Qed.

End SlotEffects.

Lemma tabInserted_rows_between_two :
  let w := mkWorld [1; 9; 2]%nat example_tab_state (Some TheWindow)
             [1; 2]%nat [] [] [] in
  exists w',
    tabInserted example_roles 1 w = Ok (tt, w') /\
    QVector.count (m_tabs w') = QVector.count (m_tabs w) + 1 /\
    QVector.value (m_tabs w') 1 = Some 9%nat /\
    (forall i, 0 <= i < 1 ->
               QVector.value (m_tabs w') i = QVector.value (m_tabs w) i) /\
    (forall i, 1 <= i ->
               QVector.value (m_tabs w') (i + 1) = QVector.value (m_tabs w) i) /\
    calls w' = calls w ++ [BeginInsertRows 1 1; EndInsertRows] /\
    m_connections w' = m_connections w ++ tab_connections example_roles 9%nat.
Proof.
  intros w. apply (tabInserted_rows example_roles w 1 9%nat).
  - discriminate.
  - reflexivity.
  - unfold QVector.count; simpl; lia.
Defined.

Lemma tabRemoved_rows_middle :
  let w := example_world [1; 2; 3]%nat in
  exists w',
    tabRemoved 1 w = Ok (tt, w') /\
    QVector.count (m_tabs w') = QVector.count (m_tabs w) - 1 /\
    (forall i, 0 <= i < 1 ->
               QVector.value (m_tabs w') i = QVector.value (m_tabs w) i) /\
    (forall i, 1 <= i ->
               QVector.value (m_tabs w') i = QVector.value (m_tabs w) (i + 1)) /\
    calls w' = calls w ++ [BeginRemoveRows 1 1; EndRemoveRows] /\
    m_connections w' = m_connections w.
Proof.
  intros w. apply (tabRemoved_rows w 1).
  unfold QVector.count; simpl; lia.
Defined.

Lemma tabInserted_then_tabRemoved_between_two :
  let w := mkWorld [1; 9; 2]%nat example_tab_state (Some TheWindow)
             [1; 2]%nat [] [] [] in
  exists w1 w2,
    tabInserted example_roles 1 w = Ok (tt, w1) /\
    tabRemoved 1 w1 = Ok (tt, w2) /\
    m_tabs w2 = m_tabs w.
Proof.
  intros w. apply (tabInserted_then_tabRemoved example_roles w 1 9%nat).
  - discriminate.
  - reflexivity.
  - unfold QVector.count; simpl; lia.
Defined.

Lemma tabMoved_there_and_back_0_2 :
  let w := example_world [1; 2; 3]%nat in
  exists w1 w2,
    tabMoved 0 2 w = Ok (tt, w1) /\
    tabMoved 2 0 w1 = Ok (tt, w2) /\
    m_tabs w2 = m_tabs w.
Proof.
  intros w. apply (tabMoved_there_and_back w 0 2);
    unfold QVector.count; simpl; lia.
Defined.

Lemma tabMoved_to_itself_1 :
  let w := example_world [1; 2; 3]%nat in
  exists w',
    tabMoved 1 1 w = Ok (tt, w') /\
    m_tabs w' = m_tabs w /\
    calls w' = calls w ++ [BeginMoveRows 1 1 1; EndMoveRows].
Proof.
  intros w. apply (tabMoved_to_itself w 1).
  unfold QVector.count; simpl; lia.
Defined.

Lemma tabMoved_outside_span_1_2 :
  let w := example_world [1; 2; 3; 4]%nat in
  exists w',
    tabMoved 1 2 w = Ok (tt, w') /\
    forall i, 0 <= i -> i < Z.min 1 2 \/ Z.max 1 2 < i ->
              QVector.value (m_tabs w') i = QVector.value (m_tabs w) i.
Proof.
  intros w. apply (tabMoved_outside_span w 1 2);
    unfold QVector.count; simpl; lia.
Defined.

(** ** Notifications and construction *)

Section Notifications.
Context {TW : Type} {container : TabWidget TW}.
Variable R : Roles.
Implicit Types (w : World TW).

Lemma slot_notifies (s : TabWidgetSignal) w w' :
  slot R s w = Ok (tt, w') ->
  calls w' = calls w ++ notification s /\
  tabWidget w' = tabWidget w /\ webTab w' = webTab w /\
  m_window w' = m_window w /\ requests w' = requests w.
Proof.
  destruct s as [index|index|from to]; simpl.
  - destruct w as [c tabs mw v conns cs rq].
    unfold tabInserted, window_webTab. run_world.
    destruct mw; [|discriminate].
    destruct (webTabAt c index); [|discriminate].
    destruct (QVector.insert index _ v); [|discriminate].
    intros H. injection H as <-. simpl. repeat split.
    now rewrite <- app_assoc.
  - unfold tabRemoved. run_slot.
    destruct (QVector.remove index (m_tabs w)); [|discriminate].
    simpl. intros H. injection H as <-. simpl. repeat split.
    now rewrite <- app_assoc.
  - unfold tabMoved. run_slot.
    destruct (QVector.takeAt from (m_tabs w)) as [[t rest]|]; [|discriminate].
    simpl. destruct (QVector.insert to t rest); [|discriminate].
    simpl. intros H. injection H as <-. simpl. repeat split.
    now rewrite <- app_assoc.
Qed.

Lemma deliver_effect (signals : list TabWidgetSignal) w w' :
  deliver R signals w = Ok (tt, w') ->
  calls w' = calls w ++ flat_map notification signals /\
  requests w' = requests w /\
  m_window w' = m_window w /\
  tabWidget w' = tabWidget w.
Proof.
  revert w; induction signals as [|s signals IH]; intros w; simpl.
  - intros H. injection H as <-. now rewrite app_nil_r.
  - unfold bind. destruct (slot R s w) as [[[] w1]|] eqn:E; [|discriminate].
    intros H. apply slot_notifies in E as (Hc & Hw & _ & Hm & Hr).
    apply IH in H as (Hc' & Hr' & Hm' & Hw').
    rewrite Hc', Hc, <- app_assoc.
    repeat split; congruence.
Qed.

(** X13. When the slots run for a sequence of signals of the container and
    all return, the calls made are, signal by signal and in order, the
    begin call for the rows of the signal followed at once by its end call;
    the slots request no move and leave the window pointer as it is. *)
Theorem deliver_notifies (signals : list TabWidgetSignal) w w' :
  deliver R signals w = Ok (tt, w') ->
  calls w' = calls w ++ flat_map notification signals /\
  requests w' = requests w /\
  m_window w' = m_window w /\
  tabWidget w' = tabWidget w.
Proof.
  revert w; induction signals as [|s signals IH]; intros w; simpl.
  - intros H. injection H as <-. now rewrite app_nil_r.
  - unfold bind. destruct (slot R s w) as [[[] w1]|] eqn:E; [|discriminate].
    intros H. apply slot_notifies in E as (Hc & Hw & _ & Hm & Hr).
    apply IH in H as (Hc' & Hr' & Hm' & Hw').
    rewrite Hc', Hc, <- app_assoc.
    repeat split; congruence.
Qed.

Lemma init_loop_runs (c : TW) (tabs : WebTab -> WebTabState)
      (win : BrowserWindow) (ts : list WebTab) :
  forall (v : list WebTab) conns cs rq,
    (forall k t, nth_error ts k = Some t ->
                 webTabAt c (QVector.count v + Z.of_nat k) = Some t) ->
    init_loop R (length ts) (QVector.count v)
      (mkWorld c tabs (Some win) v conns cs rq)
    = Ok (tt, mkWorld c tabs (Some win) (v ++ ts)
                (conns ++ flat_map (tab_connections R) ts)
                (cs ++ flat_map (fun k => notification (SigTabInserted (Z.of_nat k)))
                        (seq (length v) (length ts)))
                rq).
Proof.
  induction ts as [|t ts IH]; intros v conns cs rq Hts.
  - simpl. now rewrite !app_nil_r.
  - cbn [length init_loop]. unfold bind at 1.
    rewrite (tabInserted_result R _ (QVector.count v) t); cbn [tabWidget
      webTab m_window m_tabs m_connections calls requests].
    + replace (QVector.insert_at (Z.to_nat (QVector.count v)) t v)
        with (v ++ [t]).
      * replace (QVector.count v + 1) with (QVector.count (v ++ [t]))
          by (unfold QVector.count; rewrite length_app; simpl; lia).
        rewrite IH.
        -- rewrite <- !app_assoc. cbn [seq flat_map].
           replace (length (v ++ [t])) with (S (length v))
             by (rewrite length_app; simpl; lia).
           unfold QVector.count. reflexivity.
        -- intros k t' Hk.
           replace (QVector.count (v ++ [t]) + Z.of_nat k)
             with (QVector.count v + Z.of_nat (S k))
             by (unfold QVector.count; rewrite length_app; simpl; lia).
           now apply Hts.
      * rewrite insert_at_splits. unfold QVector.count. rewrite Nat2Z.id.
        rewrite firstn_all, skipn_all. reflexivity.
    + discriminate.
    + specialize (Hts 0%nat t eq_refl). simpl in Hts.
      now rewrite Z.add_0_r in Hts.
    + unfold QVector.count. lia.
Qed.

(** X14. Over a window whose container has a view for each of its
    [tabCount()] positions, the constructor returns with the list holding
    the container's tabs in the container's order, having announced the
    insertion of each row in turn and connected each tab's change signals;
    nothing is requested of the container, which is left as it is. *)
Theorem TabModel_new_mirrors_container
        (c : TW) (tabs : WebTab -> WebTabState) (ts : list WebTab) :
  container_tabs c = map Some ts ->
  exists w,
    TabModel_new R c tabs = Ok (tt, w) /\
    m_tabs w = ts /\
    calls w = flat_map (fun k => [BeginInsertRows (Z.of_nat k) (Z.of_nat k);
                                  EndInsertRows]) (seq 0 (length ts)) /\
    m_connections w = flat_map (tab_connections R) ts /\
    tabWidget w = c /\ m_window w = Some TheWindow /\ requests w = [].
Proof.
  intros Hts. unfold container_tabs in Hts.
  assert (Hlen : length ts = Z.to_nat (tabCount c)).
  { apply (f_equal (@length _)) in Hts.
    now rewrite !length_map, length_seq in Hts. }
  pose proof (init_loop_runs c tabs TheWindow ts [] [] [] []) as Hrun.
  eexists. split.
  - unfold TabModel_new, init, bind, get. simpl.
    rewrite <- Hlen. apply Hrun.
    intros k t Hk. simpl.
    assert (Hk' : nth_error (map Some ts) k = Some (Some t))
      by (rewrite nth_error_map, Hk; reflexivity).
    rewrite <- Hts, nth_error_map in Hk'.
    destruct (nth_error (seq 0 (Z.to_nat (tabCount c))) k) as [j|] eqn:Ej;
      [|discriminate].
    simpl in Hk'. injection Hk' as Hk'.
    assert (Hj : j = k).
    { assert (Hlt : (k < length (seq 0 (Z.to_nat (tabCount c))))%nat)
        by (apply nth_error_Some; congruence).
      rewrite length_seq in Hlt.
      apply (nth_error_nth _ _ 0%nat) in Ej.
      rewrite seq_nth in Ej by exact Hlt. lia. }
    now subst j.
  - simpl. repeat split.
Qed.

End Notifications.

Lemma deliver_notifies_three :
  let w := example_world [1; 2; 3]%nat in
  let signals := [SigTabMoved 0 2; SigTabRemoved 1; SigTabMoved 1 0] in
  exists w',
    deliver example_roles signals w = Ok (tt, w') /\
    calls w' = calls w ++ flat_map notification signals /\
    requests w' = requests w /\
    m_window w' = m_window w /\
    tabWidget w' = tabWidget w.
Proof.
  intros w signals.
  assert (Hrun : exists w', deliver example_roles signals w = Ok (tt, w'))
    by (eexists; vm_compute; reflexivity).
  destruct Hrun as (w' & Hrun). exists w'. split; [exact Hrun|].
  exact (deliver_notifies example_roles signals w w' Hrun).
Defined.

Lemma TabModel_new_mirrors_three :
  exists w,
    TabModel_new example_roles [1; 2; 3]%nat example_tab_state = Ok (tt, w) /\
    m_tabs w = [1; 2; 3]%nat /\
    calls w = flat_map (fun k => [BeginInsertRows (Z.of_nat k) (Z.of_nat k);
                                  EndInsertRows]) (seq 0 3) /\
    m_connections w = flat_map (tab_connections example_roles) [1; 2; 3]%nat /\
    tabWidget w = [1; 2; 3]%nat /\ m_window w = Some TheWindow /\
    requests w = [].
Proof.
  apply (TabModel_new_mirrors_container example_roles [1; 2; 3]%nat
           example_tab_state [1; 2; 3]%nat).
  reflexivity.
Defined.

(** ** Change signals of a tab *)

Section ChangeSignals.
Context {TW : Type} {container : TabWidget TW}.
Variable R : Roles.
Implicit Types (w : World TW).

Lemma connected_roles_app (cs cs' : list (WebTab * WebTabSignal * Z))
      (t : WebTab) (s : WebTabSignal) :
  connected_roles (cs ++ cs') t s
  = connected_roles cs t s ++ connected_roles cs' t s.
Proof.
  unfold connected_roles. now rewrite filter_app, map_app.
Qed.

Lemma connected_roles_other_tabs (cs : list (WebTab * WebTabSignal * Z))
      (t : WebTab) (s : WebTabSignal) :
  Forall (fun c => fst (fst c) <> t) cs -> connected_roles cs t s = [].
Proof.
  induction 1 as [|[[t' s'] role] cs Hc _ IH]; [reflexivity|].
  unfold connected_roles in *. simpl in *.
  destruct (Nat.eqb_spec t' t); [contradiction|]. exact IH.
Qed.

Lemma run_connections_calls (cs : list (WebTab * WebTabSignal * Z))
      (t : WebTab) (s : WebTabSignal) :
  forall (c : TW) tabs mw v conns log rq,
    run_connections cs t s (mkWorld c tabs mw v conns log rq)
    = Ok (tt, mkWorld c tabs mw v conns
                (log ++ map (fun role =>
                               DataChanged
                                 (tabIndex (mkWorld c tabs mw v conns log rq) t)
                                 (tabIndex (mkWorld c tabs mw v conns log rq) t)
                                 role)
                          (connected_roles cs t s))
                rq).
Proof.
  induction cs as [|[[t' s'] role] cs IH]; intros c tabs mw v conns log rq.
  - simpl. now rewrite app_nil_r.
  - cbn [run_connections]. unfold connected_roles. cbn [filter fst snd].
    destruct (Nat.eqb t' t && WebTabSignal_eqb s' s).
    + unfold bind at 1, emitDataChanged. run_slot.
      rewrite IH. cbn [map]. rewrite <- app_assoc. reflexivity.
    + unfold bind at 1, ret. apply IH.
Qed.

Lemma webTab_signal_result w (t : WebTab) (s : WebTabSignal) :
  webTab_signal t s w
  = Ok (tt, mkWorld (tabWidget w) (webTab w) (m_window w) (m_tabs w)
              (m_connections w)
              (calls w ++ map (fun role => DataChanged (tabIndex w t)
                                             (tabIndex w t) role)
                            (connected_roles (m_connections w) t s))
              (requests w)).
Proof.
  destruct w as [c tabs mw v conns log rq].
  unfold webTab_signal, bind, get. simpl.
  apply run_connections_calls.
Qed.

(** X15. A change signal of a tab always returns; it adds one
    [dataChanged] call per connection made for that tab and signal, in
    connection order, each with the index [tabIndex] gives for the tab at
    that moment, and changes nothing else. *)
Theorem webTab_signal_calls w (t : WebTab) (s : WebTabSignal) :
  webTab_signal t s w
  = Ok (tt, mkWorld (tabWidget w) (webTab w) (m_window w) (m_tabs w)
              (m_connections w)
              (calls w ++ map (fun role => DataChanged (tabIndex w t)
                                             (tabIndex w t) role)
                            (connected_roles (m_connections w) t s))
              (requests w)).
Proof.
  destruct w as [c tabs mw v conns log rq].
  unfold webTab_signal, bind, get. simpl.
  apply run_connections_calls.
Qed.

Lemma tabIndex_after_insert (v : list WebTab) (pos : Z) (t : WebTab)
      (c : TW) tabs mw conns log rq :
  0 <= pos <= QVector.count v ->
  ~ In t v ->
  tabIndex (mkWorld (TW := TW) c tabs mw
              (QVector.insert_at (Z.to_nat pos) t v) conns log rq) t
  = row_index pos.
Proof.
  intros Hi Hfresh.
  assert (Hn : (Z.to_nat pos <= length v)%nat)
    by (unfold QVector.count in Hi; lia).
  set (v' := QVector.insert_at (Z.to_nat pos) t v).
  assert (Hin : In t v').
  { apply (nth_error_In v' (Z.to_nat pos)).
    now apply nth_error_insert_at. }
  destruct (index_from_In t v' 0 Hin) as (n & Hlt & Hidx & Hnth & Hfirst).
  assert (En : n = Z.to_nat pos).
  { destruct (Nat.lt_trichotomy n (Z.to_nat pos)) as [Hl|[He|Hg]].
    - exfalso. apply Hfresh. apply (nth_error_In v n).
      rewrite <- Hnth. symmetry.
      now apply nth_error_insert_at_below.
    - exact He.
    - exfalso. apply (Hfirst (Z.to_nat pos) Hg).
      now apply nth_error_insert_at. }
  unfold tabIndex, QVector.indexOf. simpl. fold v'. rewrite Hidx. simpl.
  destruct (Z.ltb_spec (Z.of_nat n) 0); [lia|].
  unfold index, row_index. simpl. fold v'.
  replace (Z.of_nat n) with pos by lia.
  replace ((0 <=? pos) && (pos <? QVector.count v')) with true;
    [reflexivity|].
  symmetry. rewrite andb_true_iff, Z.leb_le, Z.ltb_lt.
  unfold QVector.count, v'. rewrite length_insert_at.
  unfold QVector.count in Hi. lia.
Qed.

(** X16. After [tabInserted(index)] has put a tab into a list that did not
    hold it, with no connection made for it before, a title change of that
    tab is announced by exactly two [dataChanged] calls for row [index]:
    one for the display role, then one for the title role. *)
Theorem titleChanged_after_tabInserted w (index : Z) (t : WebTab) :
  m_window w <> None ->
  webTabAt (tabWidget w) index = Some t ->
  0 <= index <= QVector.count (m_tabs w) ->
  ~ In t (m_tabs w) ->
  Forall (fun c => fst (fst c) <> t) (m_connections w) ->
  exists w1 w2,
    tabInserted R index w = Ok (tt, w1) /\
    webTab_signal t titleChanged w1 = Ok (tt, w2) /\
    calls w2 = calls w1 ++
               [DataChanged (row_index index) (row_index index) Qt.DisplayRole;
                DataChanged (row_index index) (row_index index) (TitleRole R)] /\
    m_tabs w2 = m_tabs w1.
Proof.
  intros Hw Ht Hi Hfresh Hconns. eexists. eexists.
  split; [apply (tabInserted_result R w index t); assumption|].
  split; [apply webTab_signal_result|].
  cbn [calls m_tabs m_connections]. split; [|reflexivity].
  rewrite (tabIndex_after_insert (m_tabs w) index t) by assumption.
  rewrite connected_roles_app, (connected_roles_other_tabs _ t _ Hconns).
  unfold connected_roles, tab_connections. cbn [filter fst snd app].
  rewrite Nat.eqb_refl. reflexivity.
Qed.

(** X17. [tabRemoved] drops no connection: after a tab new to the list was
    inserted at [index] and removed again, a title change of that tab still
    makes its two [dataChanged] calls, now with the invalid index. *)
Theorem titleChanged_after_tabRemoved w (index : Z) (t : WebTab) :
  m_window w <> None ->
  webTabAt (tabWidget w) index = Some t ->
  0 <= index <= QVector.count (m_tabs w) ->
  ~ In t (m_tabs w) ->
  Forall (fun c => fst (fst c) <> t) (m_connections w) ->
  exists w1 w2 w3,
    tabInserted R index w = Ok (tt, w1) /\
    tabRemoved index w1 = Ok (tt, w2) /\
    webTab_signal t titleChanged w2 = Ok (tt, w3) /\
    m_tabs w2 = m_tabs w /\
    calls w3 = calls w2 ++
               [DataChanged QModelIndex.invalid QModelIndex.invalid Qt.DisplayRole;
                DataChanged QModelIndex.invalid QModelIndex.invalid (TitleRole R)].
Proof.
  intros Hw Ht Hi Hfresh Hconns.
  assert (Hn : (Z.to_nat index <= length (m_tabs w))%nat)
    by (unfold QVector.count in Hi; lia).
  eexists. eexists. eexists.
  split; [apply (tabInserted_result R w index t); assumption|].
  split.
  { apply tabRemoved_runs. cbn [m_tabs]. unfold QVector.count in *.
    rewrite length_insert_at. lia. }
  split; [apply webTab_signal_result|].
  cbn [calls m_tabs m_connections tabWidget webTab m_window requests].
  rewrite (remove_at_insert_at _ t _ Hn). split; [reflexivity|].
  f_equal.
  rewrite connected_roles_app, (connected_roles_other_tabs _ t _ Hconns).
  unfold connected_roles, tab_connections. cbn [filter fst snd app].
  rewrite Nat.eqb_refl. cbn [andb WebTabSignal_eqb map].
  unfold tabIndex, QVector.indexOf. cbn [m_tabs].
  rewrite index_from_not_In by exact Hfresh. reflexivity.
Qed.

End ChangeSignals.

Lemma titleChanged_after_tabInserted_between_two :
  let w := mkWorld [1; 9; 2]%nat example_tab_state (Some TheWindow)
             [1; 2]%nat [] [] [] in
  exists w1 w2,
    tabInserted example_roles 1 w = Ok (tt, w1) /\
    webTab_signal 9%nat titleChanged w1 = Ok (tt, w2) /\
    calls w2 = calls w1 ++
               [DataChanged (row_index 1) (row_index 1) Qt.DisplayRole;
                DataChanged (row_index 1) (row_index 1)
                  (TitleRole example_roles)] /\
    m_tabs w2 = m_tabs w1.
Proof.
  intros w. apply (titleChanged_after_tabInserted example_roles w 1 9%nat).
  - discriminate.
  - reflexivity.
  - unfold QVector.count; simpl; lia.
  - simpl. intuition discriminate.
  - constructor.
Defined.

Lemma titleChanged_after_tabRemoved_between_two :
  let w := mkWorld [1; 9; 2]%nat example_tab_state (Some TheWindow)
             [1; 2]%nat [] [] [] in
  exists w1 w2 w3,
    tabInserted example_roles 1 w = Ok (tt, w1) /\
    tabRemoved 1 w1 = Ok (tt, w2) /\
    webTab_signal 9%nat titleChanged w2 = Ok (tt, w3) /\
    m_tabs w2 = m_tabs w /\
    calls w3 = calls w2 ++
               [DataChanged QModelIndex.invalid QModelIndex.invalid Qt.DisplayRole;
                DataChanged QModelIndex.invalid QModelIndex.invalid
                  (TitleRole example_roles)].
Proof.
  intros w. apply (titleChanged_after_tabRemoved example_roles w 1 9%nat).
  - discriminate.
  - reflexivity.
  - unfold QVector.count; simpl; lia.
  - simpl. intuition discriminate.
  - constructor.
Defined.

(** ** More on the payload and the drop *)

Lemma length_int_bytes (i : Z) : length (QDataStream.int_bytes i) = 4%nat.
Proof. reflexivity. Qed.

Lemma length_flat_map_int_bytes (rows : list Z) :
  length (flat_map QDataStream.int_bytes rows) = (4 * length rows)%nat.
Proof.
  induction rows as [|r rows IH]; cbn [flat_map]; [reflexivity|].
  rewrite length_app, length_int_bytes, IH. simpl length. lia.
Qed.

(** X18. The payload of [mimeData] has four bytes for each index that is
    valid and in column 0, and none for any other; the payload of two
    selections one after the other is the payload of the first followed by
    the payload of the second. *)
Theorem mimeData_payload_size (indexes more : list QModelIndex.t) :
  length (QMimeData.data (mimeData indexes) MIMETYPE)
  = (4 * length (filter encoded indexes))%nat /\
  QMimeData.data (mimeData (indexes ++ more)) MIMETYPE
  = QMimeData.data (mimeData indexes) MIMETYPE
    ++ QMimeData.data (mimeData more) MIMETYPE.
Proof.
  rewrite !mimeData_data, !mimeData_stream_appends. cbn [app]. split.
  - rewrite flat_map_rows, length_flat_map_int_bytes. now rewrite length_map.
  - now rewrite filter_app, flat_map_app.
Qed.

Section DropMore.
Context {TW : Type} {container : TabWidget TW}.
Variable R : Roles.
Implicit Types (w : World TW).

Lemma tab_of_index w (r : Z) :
  tab w (index w r)
  = if QVector.in_bounds (m_tabs w) r
    then nth_error (m_tabs w) (Z.to_nat r) else None.
Proof.
  unfold index, tab. fold (QVector.in_bounds (m_tabs w) r).
  destruct (QVector.in_bounds (m_tabs w) r) eqn:E; simpl.
  - unfold QVector.value. now rewrite E.
  - apply value_out_of_bounds. lia.
Qed.

(** X19. The tabs the read loop of [dropMimeData] collects are the tabs at
    those rows of the payload that are rows of the list, in payload order;
    a row outside the list is passed over. *)
Theorem read_tabs_skips_rows_out_of_bounds w (stream : QByteArray) :
  map Some (read_tabs w stream [])
  = map (fun r => nth_error (m_tabs w) (Z.to_nat r))
      (filter (QVector.in_bounds (m_tabs w)) (read_rows stream)).
Proof.
  rewrite read_tabs_resolve. cbn [app].
  induction (read_rows stream) as [|r rows IH]; [reflexivity|].
  unfold resolve in *. cbn [flat_map filter]. rewrite tab_of_index.
  destruct (QVector.in_bounds (m_tabs w) r) eqn:E.
  - destruct (nth_error (m_tabs w) (Z.to_nat r)) as [t|] eqn:Et.
    + cbn [app map]. rewrite Et. f_equal. exact IH.
    + apply in_bounds_true in E. apply nth_error_None in Et.
      unfold QVector.count in E. lia.
  - exact IH.
Qed.

Lemma move_tabs_request_count (tabs : list WebTab) :
  forall row w w',
    move_tabs R tabs row w = Ok (tt, w') ->
    length (requests w') = (length (requests w) + length tabs)%nat /\
    m_window w' = m_window w.
Proof.
  induction tabs as [|t rest IH]; intros row w w'.
  - simpl. intros H. injection H as <-. split; [lia|reflexivity].
  - rewrite move_tabs_unfold. cbv zeta.
    destruct (tabWidget_moveTab R _ _ w) as [[[] w1]|] eqn:E; [|discriminate].
    intros H. apply IH in H as (Hlen & Hwin).
    unfold tabWidget_moveTab in E. revert E. run_slot. intros E.
    apply deliver_effect in E as (_ & Hr & Hm & _). simpl in *.
    rewrite Hlen, Hr, length_app. simpl. split; [lia|congruence].
Qed.

Lemma dropMimeData_accepted w w' (data : QMimeData.t)
      (action : Qt.DropAction) (row column : Z) (parent : QModelIndex.t) :
  dropMimeData R data action row column parent w = Ok (true, w') ->
  action <> Qt.IgnoreAction ->
  resolve w (read_rows (QMimeData.data data MIMETYPE)) <> [] /\
  move_tabs R (resolve w (read_rows (QMimeData.data data MIMETYPE))) row w
  = Ok (tt, w').
Proof.
  unfold dropMimeData. intros H Ha.
  destruct action; try congruence; simpl in H; unfold bind at 1, get in H.
  all: destruct (_ || _); [discriminate H|].
  all: rewrite read_tabs_resolve in H; cbn [app] in H.
  all: destruct (resolve w _) as [|t ts] eqn:Et; [discriminate H|].
  all: split; [discriminate|].
  all: cbn [QVector.isEmpty] in H; unfold bind, ret in H.
  all: destruct (move_tabs R (t :: ts) row w) as [[[] w1]|];
    [|discriminate H].
  all: now injection H as <-.
Qed.

(** X20. A drop that is accepted (true is returned on an action other than
    ignore) resolved at least one tab and requested exactly one move per
    resolved tab; it leaves the window pointer as it is. *)
Theorem dropMimeData_one_request_per_tab
        w w' (data : QMimeData.t) (action : Qt.DropAction)
        (row column : Z) (parent : QModelIndex.t) :
  dropMimeData R data action row column parent w = Ok (true, w') ->
  action <> Qt.IgnoreAction ->
  let tabs := resolve w (read_rows (QMimeData.data data MIMETYPE)) in
  tabs <> [] /\
  length (requests w') = (length (requests w) + length tabs)%nat /\
  m_window w' = m_window w.
Proof.
  intros Hdrop Ha tabs.
  destruct (dropMimeData_accepted w w' data action row column parent Hdrop Ha)
    as (Hne & Hmoves).
  split; [exact Hne|]. now apply (move_tabs_request_count tabs row w w').
Qed.

End DropMore.

Lemma dropMimeData_one_request_per_tab_0_2_at_4 :
  let w := example_world [1; 2; 3; 4]%nat in
  let data := mimeData [row_index 0; row_index 7; row_index 2] in
  exists w',
    dropMimeData example_roles data Qt.MoveAction 4 0 QModelIndex.invalid w
    = Ok (true, w') /\
    resolve w (read_rows (QMimeData.data data MIMETYPE)) <> [] /\
    length (requests w')
    = (length (requests w)
       + length (resolve w (read_rows (QMimeData.data data MIMETYPE))))%nat /\
    m_window w' = m_window w.
Proof.
  intros w data.
  assert (Hrun : exists w',
             dropMimeData example_roles data Qt.MoveAction 4 0
               QModelIndex.invalid w = Ok (true, w'))
    by (eexists; vm_compute; reflexivity).
  destruct Hrun as (w' & Hrun). exists w'. split; [exact Hrun|].
  apply (dropMimeData_one_request_per_tab example_roles w w' data
           Qt.MoveAction 4 0 QModelIndex.invalid Hrun).
  discriminate.
Defined.

(** ** Drops of the model's own rows *)

Section OwnRows.
Context {TW : Type} {container : TabWidget TW}.
Variable R : Roles.
Implicit Types (w : World TW).

Lemma read_rows_of_own_rows w (rows : list Z) :
  Forall (fun r => 0 <= r < QVector.count (m_tabs w)) rows ->
  QVector.count (m_tabs w) <= Int32.INT_MAX ->
  read_rows (QMimeData.data (mimeData (map (index w) rows)) MIMETYPE) = rows.
Proof.
  intros Hrows Hmax.
  rewrite mimeData_data, mimeData_stream_appends. cbn [app].
  rewrite (filter_encoded_rows w rows Hrows), flat_map_rows, map_map.
  cbn [row_index QModelIndex.row]. rewrite map_id.
  apply read_rows_of_ints.
  eapply Forall_impl; [|exact Hrows]. cbv beta.
  unfold Int32.in_range, Int32.INT_MIN, Int32.INT_MAX in *. intros r Hr. lia.
Qed.

Lemma drop_of_own_rows_runs_loop w (rows : list Z) (row : Z) :
  m_window w <> None ->
  rows <> [] ->
  Forall (fun r => 0 <= r < QVector.count (m_tabs w)) rows ->
  QVector.count (m_tabs w) <= Int32.INT_MAX ->
  length (resolve w rows) = length rows /\
  dropMimeData R (mimeData (map (index w) rows)) Qt.MoveAction row 0
    QModelIndex.invalid w
  = match move_tabs R (resolve w rows) row w with
    | Ok (_, w') => Ok (true, w')
    | Fault => Fault
    end.
Proof.
  intros Hwin Hne Hrows Hmax.
  pose proof (read_rows_of_own_rows w rows Hrows Hmax) as Hread.
  assert (Hlen : length (resolve w rows) = length rows).
  { pose proof (resolve_rows w rows Hrows) as Hres.
    apply (f_equal (@length _)) in Hres. now rewrite !length_map in Hres. }
  split; [exact Hlen|].
  unfold dropMimeData. cbn [Qt.is_ignore]. unfold bind at 1, get.
  destruct (m_window w) as [win|]; [|congruence].
  replace (QMimeData.hasFormat (mimeData (map (index w) rows)) MIMETYPE)
    with true by reflexivity.
  cbn [negb orb QModelIndex.isValid QModelIndex.invalid QModelIndex.row
       QModelIndex.column QModelIndex.has_model andb Z.eqb Z.leb Z.compare].
  rewrite read_tabs_resolve, Hread. cbn [app].
  destruct (resolve w rows) as [|t ts] eqn:Et.
  - destruct rows; [congruence|discriminate Hlen].
  - cbn [QVector.isEmpty]. unfold bind, ret.
    now destruct (move_tabs R (t :: ts) row w) as [[[] w1]|].
Qed.

(** X23. Whatever the container, with the window alive and a list whose
    count is an [int]: the payload [mimeData] builds for a non-empty
    sequence of rows of the list, dropped as a move on the root in column 0
    at any drop row, is never refused: when the call returns it returns
    true, and it has requested one move per dragged row. *)
Theorem drop_of_own_rows_never_refused w w' (rows : list Z) (row : Z) (b : bool) :
  m_window w <> None ->
  rows <> [] ->
  Forall (fun r => 0 <= r < QVector.count (m_tabs w)) rows ->
  QVector.count (m_tabs w) <= Int32.INT_MAX ->
  dropMimeData R (mimeData (map (index w) rows)) Qt.MoveAction row 0
    QModelIndex.invalid w = Ok (b, w') ->
  b = true /\
  length (requests w') = (length (requests w) + length rows)%nat.
Proof.
  intros Hwin Hne Hrows Hmax Hdrop.
  destruct (drop_of_own_rows_runs_loop w rows row Hwin Hne Hrows Hmax)
    as (Hlen & Hloop).
  rewrite Hloop in Hdrop.
  destruct (move_tabs R (resolve w rows) row w) as [[[] w1]|] eqn:Hmoves;
    [|discriminate Hdrop].
  injection Hdrop as <- <-. split; [reflexivity|].
  rewrite <- Hlen.
  now apply (move_tabs_request_count R (resolve w rows) row w w1).
Qed.

End OwnRows.

(** ** Drops over a list-backed container *)

Section ListDrops.
Variable R : Roles.

Local Abbreviation LWorld := (World (list WebTab)).

Lemma reference_move_splice (from to : nat) (l : list WebTab) (t : WebTab) :
  nth_error l from = Some t ->
  Reference.move from to l
  = QVector.insert_at to t (QVector.remove_at from l).
Proof.
  intros Ht. unfold Reference.move. rewrite Ht.
  unfold Reference.insert_at, Reference.remove_at.
  now rewrite <- remove_at_splits, <- insert_at_splits.
Qed.

Lemma list_moveTab_in_step (from to : Z) (w w' : LWorld) :
  in_step w ->
  tabWidget_moveTab R from to w = Ok (tt, w') ->
  in_step w' /\ Permutation (m_tabs w) (m_tabs w').
Proof.
  intros [Hwin Hsync]. unfold tabWidget_moveTab. run_slot.
  unfold bind at 1, tabMoved. run_slot.
  unfold QVector.takeAt.
  destruct (QVector.in_bounds (m_tabs w) from) eqn:Eb; [|discriminate].
  destruct (nth_error (m_tabs w) (Z.to_nat from)) as [t|] eqn:Et;
    [|discriminate].
  simpl. unfold QVector.insert.
  destruct ((0 <=? to) && _); [|discriminate].
  simpl. intros H. injection H as <-. simpl.
  split; [split; [exact Hwin|]|].
  - rewrite <- Hsync. symmetry. now apply reference_move_splice.
  - rewrite <- insert_at_perm. now apply remove_at_perm.
Qed.

Lemma list_move_tabs_in_step (tabs : list WebTab) :
  forall (row : Z) (w w' : LWorld),
    in_step w ->
    move_tabs R tabs row w = Ok (tt, w') ->
    in_step w' /\ Permutation (m_tabs w) (m_tabs w').
Proof.
  induction tabs as [|t rest IH]; intros row w w' Hstep.
  - simpl. intros H. injection H as <-. split; [exact Hstep|reflexivity].
  - rewrite move_tabs_unfold. cbv zeta.
    destruct (tabWidget_moveTab R _ _ w) as [[[] w1]|] eqn:E; [|discriminate].
    intros H.
    apply (list_moveTab_in_step _ _ w w1 Hstep) in E as (Hstep1 & Hperm1).
    apply (IH _ w1 w' Hstep1) in H as (Hstep' & Hperm').
    split; [exact Hstep'|]. now rewrite Hperm1.
Qed.

(** X21. Over a list-backed container with which the model is in step,
    whenever [dropMimeData] returns, the model is again in step with the
    container -- the splices of the [tabMoved] slot are the moves the
    container made -- and its list is a permutation of the list before the
    drop. *)
Theorem dropMimeData_keeps_in_step
        (w w' : LWorld) (data : QMimeData.t) (action : Qt.DropAction)
        (row column : Z) (parent : QModelIndex.t) (b : bool) :
  in_step w ->
  dropMimeData R data action row column parent w = Ok (b, w') ->
  in_step w' /\ Permutation (m_tabs w) (m_tabs w').
Proof.
  intros Hstep Hdrop.
  apply dropMimeData_outcomes in Hdrop
    as [(_ & _ & ->)|[(_ & _ & ->)|(_ & _ & Hmoves)]].
  - split; [exact Hstep|reflexivity].
  - split; [exact Hstep|reflexivity].
  - exact (list_move_tabs_in_step _ row w w' Hstep Hmoves).
Qed.

Lemma list_moveTab_rows (from to : Z) (w : LWorld) (t : WebTab) :
  in_step w ->
  0 <= from < QVector.count (m_tabs w) ->
  0 <= to < QVector.count (m_tabs w) ->
  nth_error (m_tabs w) (Z.to_nat from) = Some t ->
  exists w',
    tabWidget_moveTab R from to w = Ok (tt, w') /\
    in_step w' /\
    requests w' = requests w ++ [(from, to)] /\
    m_tabs w' = QVector.insert_at (Z.to_nat to) t
                  (QVector.remove_at (Z.to_nat from) (m_tabs w)).
Proof.
  intros [Hwin Hsync] Hfrom Hto Ht. unfold tabWidget_moveTab. run_slot.
  unfold bind at 1.
  rewrite (tabMoved_runs _ from to t); cbn [m_tabs];
    [|exact Hfrom|lia|exact Ht].
  eexists. split; [reflexivity|]. cbn [m_tabs tabWidget m_window requests].
  split; [split; [exact Hwin|]|split; reflexivity].
  rewrite <- Hsync. symmetry. now apply reference_move_splice.
Qed.

Lemma indexOf_NoDup (v : list WebTab) (t : WebTab) (n : nat) :
  NoDup v -> nth_error v n = Some t ->
  QVector.indexOf Nat.eqb v t = Z.of_nat n.
Proof.
  intros Hnd Hn.
  assert (Hin : In t v) by (eapply nth_error_In; exact Hn).
  destruct (index_from_In t v 0 Hin) as (m & _ & Hidx & Hm & _).
  unfold QVector.indexOf. rewrite Hidx.
  rewrite (nth_error_NoDup_unique v t m n Hnd Hm Hn). lia.
Qed.

(** X22. Over a list-backed container in step with the model and without
    repeated tabs, take a row [r] of the list and a drop row [d] for which
    the destination [d - 1] (when [d >= r]) or [d] (when [d < r]) is a row
    of the list. Then dropping the single row [r] at [d] is accepted, the
    one move requested is from [r] to that destination, the dragged tab is
    at the destination afterwards, and the model is in step. *)
Theorem dropMimeData_single_row (w : LWorld) (r d : Z) :
  in_step w ->
  NoDup (m_tabs w) ->
  0 <= r < QVector.count (m_tabs w) ->
  QVector.count (m_tabs w) <= Int32.INT_MAX ->
  let to := if d >=? r then d - 1 else d in
  0 <= to < QVector.count (m_tabs w) ->
  exists w',
    dropMimeData R (mimeData [index w r]) Qt.MoveAction d 0
      QModelIndex.invalid w = Ok (true, w') /\
    requests w' = requests w ++ [(r, to)] /\
    QVector.value (m_tabs w') to = QVector.value (m_tabs w) r /\
    in_step w'.
Proof.
  intros Hstep Hnd Hr Hmax to Hto.
  destruct (takeAt_in_bounds (m_tabs w) r Hr) as (t & Ht & _).
  assert (Htabs : resolve w [r] = [t]).
  { unfold resolve. cbn [flat_map]. rewrite tab_of_index.
    rewrite (proj2 (in_bounds_true (m_tabs w) r) Hr), Ht. reflexivity. }
  assert (Hfrom : WebTab_tabIndex (tabWidget w) t = r).
  { destruct Hstep as [_ Hsync]. simpl. rewrite <- Hsync.
    rewrite (indexOf_NoDup (m_tabs w) t (Z.to_nat r) Hnd Ht). lia. }
  assert (Hwrap : (if d >=? r then Int32.sub d 1 else d) = to).
  { unfold to in *. destruct (d >=? r) eqn:E; [|reflexivity].
    apply wrap_in_range.
    unfold Int32.in_range, Int32.INT_MIN, Int32.INT_MAX in *. lia. }
  destruct (list_moveTab_rows r to w t Hstep Hr Hto Ht)
    as (w' & Hrun & Hstep' & Hreq & Hlist).
  destruct (drop_of_own_rows_runs_loop R w [r] d) as (_ & Hloop).
  { destruct Hstep as [Hwin _]. exact Hwin. }
  { discriminate. }
  { constructor; [exact Hr|constructor]. }
  { exact Hmax. }
  exists w'. split.
  - cbn [map] in Hloop. rewrite Hloop, Htabs.
    rewrite move_tabs_unfold. cbv zeta. rewrite Hfrom, Hwrap, Hrun.
    reflexivity.
  - split; [exact Hreq|]. split; [|exact Hstep'].
    rewrite Hlist, (value_in_bounds (m_tabs w) r Hr), Ht.
    rewrite value_nonneg by lia.
    apply nth_error_insert_at.
    assert (Hlen : (Z.to_nat r < length (m_tabs w))%nat)
      by (unfold QVector.count in Hr; lia).
    pose proof (length_remove_at _ _ Hlen). unfold QVector.count in Hto. lia.
Qed.

End ListDrops.

Lemma drop_of_own_rows_never_refused_2_0 :
  let w := example_world [1; 2; 3]%nat in
  exists w',
    dropMimeData example_roles (mimeData (map (index w) [2; 0]))
      Qt.MoveAction 1 0 QModelIndex.invalid w = Ok (true, w') /\
    true = true /\
    length (requests w') = (length (requests w) + length [2; 0])%nat.
Proof.
  intros w.
  assert (Hrun : exists w',
             dropMimeData example_roles (mimeData (map (index w) [2; 0]))
               Qt.MoveAction 1 0 QModelIndex.invalid w = Ok (true, w'))
    by (eexists; vm_compute; reflexivity).
  destruct Hrun as (w' & Hrun). exists w'. split; [exact Hrun|].
  apply (drop_of_own_rows_never_refused example_roles w w' [2; 0] 1 true).
  - discriminate.
  - discriminate.
  - repeat constructor; unfold QVector.count; simpl; lia.
  - unfold QVector.count, Int32.INT_MAX; simpl; lia.
  - exact Hrun.
Defined.

(** X21 on the tabs [A; B; C] = [1; 2; 3] with rows 2 and 0 dropped at row
    1: [C] goes from 2 to 1, then [A] from 0 to 1, and model and container
    both hold [C; A; B]. *)
Lemma dropMimeData_keeps_in_step_2_0_at_1 :
  let w := example_world [1; 2; 3]%nat in
  exists w',
    dropMimeData example_roles (mimeData [row_index 2; row_index 0])
      Qt.MoveAction 1 0 QModelIndex.invalid w = Ok (true, w') /\
    m_tabs w' = [3; 1; 2]%nat /\
    in_step w' /\
    Permutation (m_tabs w) (m_tabs w').
Proof.
  intros w.
  assert (Hrun : exists w',
             dropMimeData example_roles (mimeData [row_index 2; row_index 0])
               Qt.MoveAction 1 0 QModelIndex.invalid w = Ok (true, w') /\
             m_tabs w' = [3; 1; 2]%nat).
  { eexists. split; vm_compute; reflexivity. }
  destruct Hrun as (w' & Hrun & Htabs).
  exists w'. split; [exact Hrun|]. split; [exact Htabs|].
  apply (dropMimeData_keeps_in_step example_roles w w'
           (mimeData [row_index 2; row_index 0]) Qt.MoveAction 1 0
           QModelIndex.invalid true).
  - split; [discriminate|reflexivity].
  - exact Hrun.
Defined.

(** X22 on the tabs [A; B; C] = [1; 2; 3]: row 1 dropped at drop row 1 is
    moved to row 0. *)
Lemma dropMimeData_single_row_1_at_1 :
  let w := example_world [1; 2; 3]%nat in
  exists w',
    dropMimeData example_roles (mimeData [index w 1]) Qt.MoveAction 1 0
      QModelIndex.invalid w = Ok (true, w') /\
    requests w' = requests w ++ [(1, 0)] /\
    QVector.value (m_tabs w') 0 = QVector.value (m_tabs w) 1 /\
    in_step w'.
Proof.
  intros w. apply (dropMimeData_single_row example_roles w 1 1).
  - split; [discriminate|reflexivity].
  - simpl. repeat (constructor; [simpl; intuition discriminate|]). constructor.
  - unfold QVector.count; simpl; lia.
  - unfold QVector.count, Int32.INT_MAX; simpl; lia.
  - unfold QVector.count; simpl; lia.
Defined.
